(** * pull_osm_data.py: download, merge and upload OpenStreetMap extracts

    A shallow embedding of [pull_osm_data.py] and the properties its
    specification states about it.

    Python values are modelled as follows.
    - [str] is [string]; a character is a code point below 256.
    - a [dict] is an association list in insertion order ([dict]);
      [os.environ] is a [gmap string string], and setting a variable
      fails as [putenv] does: on a NUL character, and on an empty name.
    - the file system is a [gmap] from path strings to nodes; a regular file
      has a modification time and its text.
    - exceptions are values of [raised]; a call either returns or raises,
      and the effects it had on the world before raising stay. Signals
      that reach the process from outside (a keyboard interrupt) are not
      part of the model.
    - everything the script cannot decide on its own (whether a system call
      or a library call fails, what a server answers, what time it is) is
      answered by an [externals] record, which sees the history of the calls
      made so far. The theorems hold for every such record. *)

From Stdlib Require Import ZArith Ascii String List Lia DecimalString.
From stdpp Require Import base option list gmap strings fin_maps.

Local Open Scope Z_scope.

(** ** Python strings *)

Module PyStr.

(** [c in s] for a single character [c]. *)
Fixpoint contains (c : ascii) (s : string) : bool :=
  match s with
  | EmptyString => false
  | String a s' => if Ascii.eqb a c then true else contains c s'
  end.

(** [s.count(c)] for a single character [c]. *)
Fixpoint count (c : ascii) (s : string) : nat :=
  match s with
  | EmptyString => O
  | String a s' => if Ascii.eqb a c then S (count c s') else count c s'
  end.

(** [s.split(sep)] for a one-character separator: the pieces between the
    occurrences of [sep], empty pieces included. *)
Fixpoint split (sep : ascii) (s : string) : list string :=
  match s with
  | EmptyString => [EmptyString]
  | String a s' =>
      if Ascii.eqb a sep then EmptyString :: split sep s'
      else match split sep s' with
           | piece :: rest => String a piece :: rest
           | [] => [String a EmptyString]
           end
  end.

(** [s.split(sep, maxsplit=1)]: cut at the first occurrence only. *)
Fixpoint split1 (sep : ascii) (s : string) : list string :=
  match s with
  | EmptyString => [EmptyString]
  | String a s' =>
      if Ascii.eqb a sep then [EmptyString; s']
      else match split1 sep s' with
           | piece :: rest => String a piece :: rest
           | [] => [String a EmptyString]
           end
  end.

(** [str.isspace] on the code points below 256: TAB, LF, VT, FF, CR,
    FS, GS, RS, US, space, NEL and NBSP. *)
Definition isspace (c : ascii) : bool :=
  let n := nat_of_ascii c in
  ((9 <=? n) && (n <=? 13) || (28 <=? n) && (n <=? 32)
   || (n =? 133) || (n =? 160))%nat.

Fixpoint lstrip (s : string) : string :=
  match s with
  | EmptyString => EmptyString
  | String a s' => if isspace a then lstrip s' else s
  end.

Fixpoint rstrip (s : string) : string :=
  match s with
  | EmptyString => EmptyString
  | String a s' =>
      match rstrip s' with
      | EmptyString => if isspace a then EmptyString else String a EmptyString
      | r => String a r
      end
  end.

(** [s.strip()] *)
Definition strip (s : string) : string := rstrip (lstrip s).

(** [s.startswith(c)] for a single character [c]. *)
Definition startswith (c : ascii) (s : string) : bool :=
  match s with
  | EmptyString => false
  | String a _ => Ascii.eqb a c
  end.

(** The line boundaries of [str.splitlines] below 256, CR LF apart:
    LF, VT, FF, CR, FS, GS, RS and NEL. *)
Definition is_linebreak (c : ascii) : bool :=
  let n := nat_of_ascii c in
  ((10 <=? n) && (n <=? 13) || (28 <=? n) && (n <=? 30) || (n =? 133))%nat.

(** [splitlines_from cur s]: the lines of [s], where [cur] is the text of
    the current line read so far, in reverse. A trailing line boundary
    starts no further line. *)
Fixpoint splitlines_from (cur : list ascii) (s : string) : list string :=
  match s with
  | EmptyString =>
      match cur with
      | [] => []
      | _ => [string_of_list_ascii (rev cur)]
      end
  | String a s' =>
      if is_linebreak a then
        string_of_list_ascii (rev cur) ::
          match s' with
          | String b s'' =>
              if Ascii.eqb a "013" && Ascii.eqb b "010"
              then splitlines_from [] s''
              else splitlines_from [] s'
          | EmptyString => []
          end
      else splitlines_from (a :: cur) s'
  end.

(** [s.splitlines()] *)
Definition splitlines (s : string) : list string := splitlines_from [] s.

(** The text a file opened in text mode hands out: CR LF and a lone CR
    are read as LF (universal newlines). *)
Fixpoint universal_newlines (s : string) : string :=
  match s with
  | EmptyString => EmptyString
  | String a s' =>
      if Ascii.eqb a "013" then
        match s' with
        | String b s'' =>
            if Ascii.eqb b "010" then String "010" (universal_newlines s'')
            else String "010" (universal_newlines s')
        | EmptyString => String "010" EmptyString
        end
      else String a (universal_newlines s')
  end.

(** [s.rfind(c)] for a single character [c]: the index of its last
    occurrence, [-1] when there is none. *)
Fixpoint rfind (c : ascii) (s : string) : Z :=
  match s with
  | EmptyString => -1
  | String a s' =>
      let r := rfind c s' in
      if 0 <=? r then r + 1
      else if Ascii.eqb a c then 0 else -1
  end.

Fixpoint drop_chars (n : nat) (s : string) : string :=
  match n, s with
  | O, _ => s
  | S n', String _ s' => drop_chars n' s'
  | S _, EmptyString => EmptyString
  end.

(** [s[i:]] for an index [i] that is not negative. *)
Definition slice_from (i : Z) (s : string) : string :=
  drop_chars (Z.to_nat i) s.

(** [posixpath.basename]:
    [i = p.rfind('/') + 1; return p[i:]]. *)
Definition basename (p : string) : string :=
  let i := rfind "/" p + 1 in
  slice_from i p.

(** [sep.join(l)] *)
Fixpoint join (sep : string) (l : list string) : string :=
  match l with
  | [] => EmptyString
  | [piece] => piece
  | piece :: rest => piece +:+ sep +:+ join sep rest
  end.

(** The root [pathlib] keeps of a POSIX path: one slash, or two when
    the path starts with exactly two. *)
Definition posix_root (p : string) : string :=
  match p with
  | String a (String b (String c _)) =>
      if Ascii.eqb a "/" then
        if Ascii.eqb b "/" then
          if Ascii.eqb c "/" then "/" else "//"
        else "/"
      else ""
  | String a (String b EmptyString) =>
      if Ascii.eqb a "/" then if Ascii.eqb b "/" then "//" else "/" else ""
  | String a EmptyString => if Ascii.eqb a "/" then "/" else ""
  | EmptyString => ""
  end.

(** [str(Path(p))]: the root, then the pieces between slashes that are
    neither empty nor ["."], joined by single slashes; ["."] when
    nothing is left. *)
Definition path_str (p : string) : string :=
  let pieces :=
    List.filter (fun piece => negb (String.eqb piece "")
                              && negb (String.eqb piece "."))
      (split "/" p) in
  let spelled := posix_root p +:+ join "/" pieces in
  if String.eqb spelled "" then "." else spelled.

End PyStr.


(** ** Dates and durations *)

Module PyTime.

(** A naive [datetime]: the day's ordinal, the second of the day and the
    microsecond of the second. *)
Record datetime := mk_datetime {
  dt_ordinal : Z;
  dt_second : Z;
  dt_microsecond : Z
}.

(** A [timedelta], normalised as Python keeps it: [0 <= seconds < 86400]
    and [0 <= microseconds < 1000000], the sign carried by [days]. *)
Record timedelta := mk_timedelta {
  days : Z;
  seconds : Z;
  microseconds : Z
}.

(** [timedelta(days=d, seconds=s, microseconds=us)]: the constructor
    carries microseconds into seconds and seconds into days, with floor
    division. *)
Definition new_timedelta (d s us : Z) : timedelta :=
  let s1 := s + us / 1000000 in
  {| days := d + s1 / 86400;
     seconds := s1 mod 86400;
     microseconds := us mod 1000000 |}.

(** [a - b] on two [datetime] values. *)
Definition datetime_sub (a b : datetime) : timedelta :=
  new_timedelta (dt_ordinal a - dt_ordinal b)
                (dt_second a - dt_second b)
                (dt_microsecond a - dt_microsecond b).

(** The microseconds from day 0 to a [datetime]. *)
Definition to_microseconds (a : datetime) : Z :=
  (dt_ordinal a * 86400 + dt_second a) * 1000000 + dt_microsecond a.

(** Seven days, in microseconds. *)
Definition week_us : Z := 7 * 86400 * 1000000.

End PyTime.

(** ** Exceptions *)

(** The exception classes the script names or can meet. All of them derive
    from [Exception]; [requests] derives [RequestException] from
    [IOError], which is [OSError]. *)
Inductive exc_class :=
  | Exception
  | OSError
  | FileNotFoundError
  | FileExistsError
  | PermissionError
  | IsADirectoryError
  | IndexError
  | ValueError
  | RuntimeError
  | RequestException
  | HTTPError
  | ConnectionError.

#[global] Instance exc_class_eq_dec : EqDecision exc_class.
Proof. solve_decision. Defined.

(** The class itself followed by its base classes. *)
Definition mro (c : exc_class) : list exc_class :=
  match c with
  | Exception => [Exception]
  | OSError => [OSError; Exception]
  | FileNotFoundError => [FileNotFoundError; OSError; Exception]
  | FileExistsError => [FileExistsError; OSError; Exception]
  | PermissionError => [PermissionError; OSError; Exception]
  | IsADirectoryError => [IsADirectoryError; OSError; Exception]
  | IndexError => [IndexError; Exception]
  | ValueError => [ValueError; Exception]
  | RuntimeError => [RuntimeError; Exception]
  | RequestException => [RequestException; OSError; Exception]
  | HTTPError => [HTTPError; RequestException; OSError; Exception]
  | ConnectionError => [ConnectionError; RequestException; OSError; Exception]
  end.

Definition issubclass (c base : exc_class) : bool :=
  bool_decide (base ∈ mro c).

(** An exception object that derives from [Exception]: its class and
    [str(e)]. *)
Record error := mk_error {
  err_class : exc_class;
  err_text : string
}.

(** What a [raise] carries: an [error], or the [SystemExit] of
    [sys.exit], which derives from [BaseException] only and so passes
    every [except Exception]. *)
Inductive raised :=
  | Error (e : error)
  | SystemExit (code : option Z).

Inductive result (A : Type) :=
  | Ok (a : A)
  | Raise (r : raised).
Arguments Ok {A} a.
Arguments Raise {A} r.

(** ** The world the script runs in *)

Import PyTime.

(** A directory entry: a directory or a regular file, with its
    modification time and, for a file, its text. *)
Record node := mk_node {
  is_dir : bool;
  mtime : datetime;
  data : string
}.

Inductive level := INFO | ERROR | CRITICAL.

(** The calls that leave the process and can fail for reasons of their
    own. *)
Inductive call :=
  | Unlink (path : string)
  | Makedirs (path : string)
  | OpenRead (path : string)
  | OpenWrite (path : string)
  | Get (url : string)
  | SimpleWriter (path : string)
  | MergeInputReader
  | AddFile (path : string)
  | Apply
  | Boto3Client (endpoint_url access_key_id access_key_secret : string)
  | UploadFileobj (bucket key : string).

#[global] Instance call_eq_dec : EqDecision call.
Proof. solve_decision. Defined.

Record world := mk_world {
  fs : gmap string node;
  environ : gmap string string;
  objects : gmap (string * string) string;
  log : list (level * string);
  history : list call
}.

Definition set_fs (f : gmap string node → gmap string node) (w : world) : world :=
  mk_world (f (fs w)) (environ w) (objects w) (log w) (history w).
Definition set_environ (f : gmap string string → gmap string string) (w : world) : world :=
  mk_world (fs w) (f (environ w)) (objects w) (log w) (history w).
Definition set_objects
    (f : gmap (string * string) string → gmap (string * string) string)
    (w : world) : world :=
  mk_world (fs w) (environ w) (f (objects w)) (log w) (history w).
Definition add_log (l : level) (msg : string) (w : world) : world :=
  mk_world (fs w) (environ w) (objects w) (log w ++ [(l, msg)]) (history w).
Definition add_call (c : call) (w : world) : world :=
  mk_world (fs w) (environ w) (objects w) (log w) (history w ++ [c]).

(** A streamed HTTP response: the status and the reason of the status
    line, the address the response is for, the chunks [iter_content]
    yields, and the error that breaks the stream after them, if any. *)
Record response := mk_response {
  status_code : Z;
  resp_reason : string;
  resp_url : string;
  chunks : list string;
  stream_error : option error
}.

(** The answers of the outside, each a function of the calls made so far. *)
Record externals := mk_externals {
  (** whether this call fails, and how *)
  fault : list call → call → option error;
  (** what the server answers to a GET that went through *)
  answer : list call → string → response;
  (** [datetime.now()] *)
  now : list call → datetime;
  (** the extract the merge library makes of the texts of its inputs *)
  merged : list string → string;
  (** [eval] of a setting other than [True] and [False]: an error, or the
      truth value of what it evaluates to *)
  py_eval : string → error + bool
}.

(** ** Computations: state and exceptions *)

Definition M (A : Type) : Type := world → result A * world.

Definition ret {A} (a : A) : M A := fun w => (Ok a, w).

Definition bind {A B} (m : M A) (k : A → M B) : M B :=
  fun w =>
    match m w with
    | (Ok a, w') => k a w'
    | (Raise r, w') => (Raise r, w')
    end.

Definition raise {A} (r : raised) : M A := fun w => (Raise r, w).

Definition raise_error {A} (c : exc_class) (text : string) : M A :=
  raise (Error (mk_error c text)).

Notation "x <- m ;; k" := (bind m (fun x => k))
  (at level 20, m at level 99, k at level 200, only parsing).
Notation "m ;; k" := (bind m (fun _ => k))
  (at level 100, k at level 200, only parsing, right associativity).

(** The first [except] clause whose class the error is an instance of. *)
Fixpoint find_handler {A} (e : error)
    (clauses : list (exc_class * (error → M A))) : option (error → M A) :=
  match clauses with
  | [] => None
  | (c, h) :: rest =>
      if issubclass (err_class e) c then Some h else find_handler e rest
  end.

(** [try: body except C1 as e: h1 except C2 as e: h2 ...]. An error of
    the body goes to the first clause that matches it; an error of a
    handler, a [SystemExit], and an error no clause matches propagate. *)
Definition try_except {A} (body : M A)
    (clauses : list (exc_class * (error → M A))) : M A :=
  fun w =>
    match body w with
    | (Raise (Error e), w') =>
        match find_handler e clauses with
        | Some h => h e w'
        | None => (Raise (Error e), w')
        end
    | other => other
    end.

(** A computation that does not touch the world. *)
Definition lift {A} (r : result A) : M A := fun w => (r, w).

(** [sys.exit(code)] *)
Definition sys_exit {A} (code : option Z) : M A := raise (SystemExit code).

(** [l[i]] on a list: [IndexError] out of range. *)
Definition index {A} (l : list A) (i : nat) : M A :=
  match l !! i with
  | Some x => ret x
  | None => raise_error IndexError "list index out of range"
  end.

Definition logger_info (msg : string) : M unit :=
  fun w => (Ok tt, add_log INFO msg w).
Definition logger_error (msg : string) : M unit :=
  fun w => (Ok tt, add_log ERROR msg w).
Definition logger_critical (msg : string) : M unit :=
  fun w => (Ok tt, add_log CRITICAL msg w).

(** ** Python dictionaries, in insertion order *)

Definition dict := list (string * string).

Fixpoint dict_get (d : dict) (key : string) : option string :=
  match d with
  | [] => None
  | (k, v) :: d' => if String.eqb k key then Some v else dict_get d' key
  end.

(** [d.setdefault(key, value)]: a key already there keeps its value and
    its place. *)
Fixpoint dict_setdefault (d : dict) (key value : string) : dict :=
  match d with
  | [] => [(key, value)]
  | (k, v) :: d' =>
      if String.eqb k key then d else (k, v) :: dict_setdefault d' key value
  end.

(** ** Module-level names and the handler object *)

Record storage_config := mk_storage_config {
  bucket_name : string;
  endpoint_url : string;
  access_key_id : string;
  access_key_secret : string
}.

Record globals := mk_globals {
  all_locations : list string;
  DATA_DIR : string;
  DOWNLOAD_DIR : string;
  OSM_DIR : string;
  OSM_SOURCE : option string;
  S3_ENABLED : bool;
  S3_CONFIG : storage_config
}.

Definition output_name : string := "all".

Record OSMDownloaderMerger := mk_handler {
  base_url : string;
  locations : list string
}.

Section Program.

Variable ext : externals.

(** *** System and library calls *)

Definition modify (f : world → world) : M unit := fun w => (Ok tt, f w).

Definition get_history : M (list call) := fun w => (Ok (history w), w).

Definition lookup_node (p : string) : M (option node) :=
  fun w => (Ok (fs w !! p), w).

(** A call that leaves the process: it is recorded, and it fails when
    the outside says so. *)
Definition invoke (c : call) : M unit :=
  fun w =>
    match fault ext (history w) c with
    | Some e => (Raise (Error e), add_call c w)
    | None => (Ok tt, add_call c w)
    end.

(** [datetime.now()] *)
Definition datetime_now : M datetime :=
  fun w => (Ok (now ext (history w)), w).

(** [Path(p).is_file()] *)
Definition path_is_file (p : string) : M bool :=
  n <- lookup_node p;;
  ret (match n with Some n => negb (is_dir n) | None => false end).

(** [os.path.exists(p)] *)
Definition os_path_exists (p : string) : M bool :=
  n <- lookup_node p;;
  ret (match n with Some _ => true | None => false end).

(** [datetime.fromtimestamp(os.path.getmtime(p))] *)
Definition getmtime_datetime (p : string) : M datetime :=
  n <- lookup_node p;;
  match n with
  | Some n => ret (mtime n)
  | None => raise_error FileNotFoundError p
  end.

(** [os.makedirs(p)] *)
Definition os_makedirs (p : string) : M unit :=
  invoke (Makedirs p);;
  n <- lookup_node p;;
  match n with
  | Some _ => raise_error FileExistsError p
  | None =>
      t <- datetime_now;;
      modify (set_fs (insert p (mk_node true t "")))
  end.

(** [Path(p).unlink()] *)
Definition path_unlink (p : string) : M unit :=
  invoke (Unlink p);;
  n <- lookup_node p;;
  match n with
  | None => raise_error FileNotFoundError p
  | Some n =>
      if is_dir n then raise_error IsADirectoryError p
      else modify (set_fs (delete p))
  end.

(** Opening a file for reading, and reading all of it: its bytes. *)
Definition open_read (p : string) : M string :=
  invoke (OpenRead p);;
  n <- lookup_node p;;
  match n with
  | None => raise_error FileNotFoundError p
  | Some n =>
      if is_dir n then raise_error IsADirectoryError p else ret (data n)
  end.

(** [open(p).read()], in text mode. *)
Definition read_text (p : string) : M string :=
  d <- open_read p;;
  ret (PyStr.universal_newlines d).

(** [open(p, "wb")]: the file is created, or emptied. *)
Definition open_write (p : string) : M unit :=
  invoke (OpenWrite p);;
  n <- lookup_node p;;
  match n with
  | Some (mk_node true _ _) => raise_error IsADirectoryError p
  | _ =>
      t <- datetime_now;;
      modify (set_fs (insert p (mk_node false t "")))
  end.

(** [f.write(chunk)] on the file opened at [p]. *)
Definition file_write (p chunk : string) : M unit :=
  n <- lookup_node p;;
  t <- datetime_now;;
  let old := match n with Some n => data n | None => "" end in
  modify (set_fs (insert p (mk_node false t (old +:+ chunk)))).

(** [requests.get(url, stream=True)] *)
Definition requests_get (url : string) : M response :=
  h <- get_history;;
  invoke (Get url);;
  ret (answer ext h url).

(** [str(n)] for an integer. *)
Definition str_of_int (n : Z) : string := NilZero.string_of_int (Z.to_int n).

(** The message [raise_for_status] builds: empty unless the status is a
    4xx or a 5xx one. *)
Definition http_error_msg (r : response) : string :=
  if (400 <=? status_code r) && (status_code r <? 500) then
    str_of_int (status_code r) +:+ " Client Error: " +:+ resp_reason r
    +:+ " for url: " +:+ resp_url r
  else if (500 <=? status_code r) && (status_code r <? 600) then
    str_of_int (status_code r) +:+ " Server Error: " +:+ resp_reason r
    +:+ " for url: " +:+ resp_url r
  else "".

(** [response.raise_for_status()]: [HTTPError] with that message, when
    there is one. *)
Definition raise_for_status (r : response) : M unit :=
  let msg := http_error_msg r in
  if negb (String.eqb msg "") then raise_error HTTPError msg
  else ret tt.

(** [os.getenv(key)] and [os.getenv(key, default)] *)
Definition os_getenv (key : string) : M (option string) :=
  fun w => (Ok (environ w !! key), w).

Definition os_getenv_default (key default : string) : M string :=
  v <- os_getenv key;;
  ret (match v with Some v => v | None => default end).

(** [eval(s)] of a setting, as a truth value. *)
Definition eval_setting (s : string) : M bool :=
  if String.eqb s "True" then ret true
  else if String.eqb s "False" then ret false
  else match py_eval ext s with
       | inl e => raise (Error e)
       | inr b => ret b
       end.

(** *** [load_env_file] *)

(** The loop over the lines: a blank line, a comment and a line without
    ["="] are skipped ([continue]); the others are cut at the first
    ["="] and entered with [setdefault]. The loop touches nothing but
    [dotenv_vars]. *)
Fixpoint read_vars (lines : list string) (dotenv_vars : dict) : result dict :=
  match lines with
  | [] => Ok dotenv_vars
  | line :: rest =>
      let line := PyStr.strip line in
      if String.eqb line "" || PyStr.startswith "#" line
         || negb (PyStr.contains "=" line)
      then read_vars rest dotenv_vars
      else
        match PyStr.split1 "=" line with
        | [key; value] =>
            read_vars rest (dict_setdefault dotenv_vars key value)
        | _ => Raise (Error (mk_error ValueError "not enough values to unpack"))
        end
  end.

(** What [putenv] refuses: a name or a value with a NUL character
    ([ValueError]), a name with ["="] ([ValueError]), and the empty name
    ([OSError], from [setenv]). *)
Definition putenv_error (key value : string) : option error :=
  if PyStr.contains "000" key || PyStr.contains "000" value then
    Some (mk_error ValueError "embedded null byte")
  else if PyStr.contains "=" key then
    Some (mk_error ValueError "illegal environment variable name")
  else if String.eqb key "" then
    Some (mk_error OSError "[Errno 22] Invalid argument")
  else None.

(** [os.environ[key] = value] *)
Definition environ_setitem (key value : string) : M unit :=
  match putenv_error key value with
  | Some e => raise (Error e)
  | None => modify (set_environ (insert key value))
  end.

(** [os.environ.update(d)]: the items are set one after the other, up
    to the first one that is refused. *)
Fixpoint environ_update (d : dict) : M unit :=
  match d with
  | [] => ret tt
  | (key, value) :: d' =>
      environ_setitem key value;;
      environ_update d'
  end.

(** [os.environ.setdefault(key, value)]: a variable that is there is
    left alone; one that is not is set. *)
Definition environ_setdefault (key value : string) : M unit :=
  fun w =>
    match environ w !! key with
    | Some _ => (Ok tt, w)
    | None => environ_setitem key value w
    end.

(** [for key, value in d.items(): os.environ.setdefault(key, value)] *)
Fixpoint environ_setdefault_all (d : dict) : M unit :=
  match d with
  | [] => ret tt
  | (key, value) :: d' =>
      environ_setdefault key value;;
      environ_setdefault_all d'
  end.

Definition load_env_file (input_env_file : string) (override : bool) : M unit :=
  let dotenv_path := ".env" in
  found <- path_is_file input_env_file;;
  dotenv_path <-
    (if found then ret input_env_file
     else
       fallback <- path_is_file dotenv_path;;
       if fallback then ret dotenv_path
       else
         logger_critical "Unable to load env vars";;
         sys_exit None);;
  text <- read_text dotenv_path;;
  let lines := PyStr.splitlines text in
  dotenv_vars <- lift (read_vars lines []);;
  if override then environ_update dotenv_vars
  else environ_setdefault_all dotenv_vars.

(** *** The module-level assignments *)

Definition str_of_optional (v : option string) : string :=
  match v with Some v => v | None => "None" end.

Definition module_init : M globals :=
  load_env_file ".osm.env" false;;
  locations_conf <- os_getenv_default "OSM_LOCATIONS" "africa/togo,africa/benin";;
  logger_info locations_conf;;
  let all_locations := PyStr.split "," locations_conf in
  DATA_DIR <- os_getenv_default "DATA_DIR" "./";;
  let DOWNLOAD_DIR := DATA_DIR +:+ "/osm_downloads" in
  let OSM_DIR := DATA_DIR +:+ "/openstreetmap" in
  OSM_SOURCE <- os_getenv "OSM_SOURCE";;
  s3_enabled <- os_getenv_default "S3_ENABLED" "False";;
  S3_ENABLED <- eval_setting s3_enabled;;
  S3_ACCOUNT_ID <- os_getenv "S3_ACCOUNT_ID";;
  S3_ENDPOINT_URL <- os_getenv_default "S3_ENDPOINT_URL"
    ("https://" +:+ str_of_optional S3_ACCOUNT_ID +:+ ".r2.cloudflarestorage.com");;
  bucket <- os_getenv_default "S3_BUCKET_NAME" "";;
  key_id <- os_getenv_default "S3_ACCESS_KEY_ID" "";;
  key_secret <- os_getenv_default "S3_ACCESS_KEY_SECRET" "";;
  ret (mk_globals all_locations DATA_DIR DOWNLOAD_DIR OSM_DIR OSM_SOURCE
         S3_ENABLED
         (mk_storage_config bucket S3_ENDPOINT_URL key_id key_secret)).

(** *** [class OSMDownloaderMerger] *)

Section Handler.

Variable g : globals.

(** [__init__] *)
Definition init (base_url : string) (locations : list string)
  : M OSMDownloaderMerger :=
  try_except
    (osm_dir <- os_path_exists (OSM_DIR g);;
     (if negb osm_dir then os_makedirs (OSM_DIR g) else ret tt);;
     download_dir <- os_path_exists (DOWNLOAD_DIR g);;
     (if negb download_dir then os_makedirs (DOWNLOAD_DIR g) else ret tt))
    [(FileExistsError, fun _ => ret tt)];;
  ret (mk_handler base_url locations).

Definition needs_download (filepath : string) : M bool :=
  present <- os_path_exists filepath;;
  if negb present then ret true
  else
    file_time <- getmtime_datetime filepath;;
    now <- datetime_now;;
    let age := datetime_sub now file_time in
    ret (7 <=? days age).

Definition clean_old_merge (file_input : string) : M unit :=
  logger_info "Cleaning up old merged file..";;
  (* [Path(file_input)]: the same file, spelled as [pathlib] spells it *)
  let file_path := PyStr.path_str file_input in
  try_except
    (path_unlink file_input;;
     logger_info (file_path +:+ " has been deleted successfully."))
    [(FileNotFoundError, fun _ =>
        logger_error (file_path +:+ " does not exist."));
     (PermissionError, fun _ =>
        logger_error ("Permission denied: " +:+ file_path +:+ "."));
     (Exception, fun e =>
        logger_error ("Error occurred: " +:+ err_text e))].

(** [for chunk in response.iter_content(chunk_size=8192): f.write(chunk)] *)
Fixpoint write_chunks (filename : string) (cs : list string)
    (broken : option error) : M unit :=
  match cs with
  | [] =>
      match broken with
      | Some e => raise (Error e)
      | None => ret tt
      end
  | chunk :: cs' =>
      file_write filename chunk;;
      write_chunks filename cs' broken
  end.

(** The [try] block of [download_files]. *)
Definition download_try (loc filename url : string) : M (option string) :=
  response <- requests_get url;;
  raise_for_status response;;
  open_write filename;;
  write_chunks filename (chunks response) (stream_error response);;
  logger_info ("Successfully downloaded " +:+ loc +:+ " OSM data");;
  ret (Some filename).

(** The body of the loop of [download_files] for one location: the path
    to append, or nothing where the body leaves by [continue]. *)
Definition download_one (self : OSMDownloaderMerger) (loc : string)
  : M (option string) :=
  let paths := PyStr.split "/" loc in
  country <- index paths 1;;
  let filename := DOWNLOAD_DIR g +:+ "/" +:+ country +:+ "-latest.osm.pbf" in
  let filepath := loc +:+ "-latest.osm.pbf" in
  needed <- needs_download filename;;
  if needed then
    let url := base_url self +:+ "/" +:+ filepath in
    logger_info ("Downloading OSM file for " +:+ loc);;
    try_except (download_try loc filename url)
      [(RequestException, fun e =>
          logger_error ("Failed to download " +:+ loc +:+ " OSM data: "
                        +:+ err_text e);;
          ret None)]
  else ret (Some filename).

Fixpoint download_loop (self : OSMDownloaderMerger) (locs : list string)
    (downloaded_files : list string) : M (list string) :=
  match locs with
  | [] => ret downloaded_files
  | loc :: rest =>
      appended <- download_one self loc;;
      match appended with
      | Some filename =>
          download_loop self rest (downloaded_files ++ [filename])
      | None => download_loop self rest downloaded_files
      end
  end.

Definition download_files (self : OSMDownloaderMerger) : M (list string) :=
  download_loop self (locations self) [].

(** [for input_file in input_files: reader.add_file(input_file)]; the
    reader is the list of the texts added so far. *)
Fixpoint add_files (input_files : list string) (reader : list string)
  : M (list string) :=
  match input_files with
  | [] => ret reader
  | input_file :: rest =>
      logger_info ("Processing " +:+ input_file);;
      invoke (AddFile input_file);;
      n <- lookup_node input_file;;
      let text := match n with Some n => data n | None => "" end in
      add_files rest (reader ++ [text])
  end.

(** The [try] block of [merge_files]. *)
Definition merge_files_try (input_files : list string) (output_file : string)
  : M (option string) :=
  logger_info "Starting merge process";;
  clean_old_merge output_file;;
  invoke (SimpleWriter output_file);;
  t <- datetime_now;;
  modify (set_fs (insert output_file (mk_node false t "")));;
  invoke MergeInputReader;;
  reader <- add_files input_files [];;
  invoke Apply;;
  t <- datetime_now;;
  modify (set_fs (insert output_file (mk_node false t (merged ext reader))));;
  logger_info ("Successfully merged files into " +:+ output_file);;
  ret (Some output_file).

Definition merge_files (input_files : list string) (output_file : string)
  : M (option string) :=
  try_except (merge_files_try input_files output_file)
    [(Exception, fun e =>
        logger_error ("Failed to merge files: " +:+ err_text e);;
        ret None)].

(** The [try] block of [upload_to_r2]. *)
Definition upload_to_r2_try (file_path bucket_name endpoint_url
    access_key_id access_key_secret : string) : M bool :=
  logger_info "Initiating upload to Cloudflare R2";;
  invoke (Boto3Client endpoint_url access_key_id access_key_secret);;
  file_data <- open_read file_path;;
  invoke (UploadFileobj bucket_name (PyStr.basename file_path));;
  modify (set_objects
            (insert (bucket_name, PyStr.basename file_path) file_data));;
  logger_info ("Successfully uploaded " +:+ file_path +:+ " to R2");;
  ret true.

Definition upload_to_r2 (file_path bucket_name endpoint_url
    access_key_id access_key_secret : string) : M bool :=
  try_except
    (upload_to_r2_try file_path bucket_name endpoint_url
       access_key_id access_key_secret)
    [(Exception, fun e =>
        logger_error ("Failed to upload to R2: " +:+ err_text e);;
        ret false)].

(** *** [main] *)

Definition main : M unit :=
  match OSM_SOURCE g with
  | None =>
      logger_critical "Incorrect download URL";;
      sys_exit None
  | Some source =>
      osm_handler <- init source (all_locations g);;
      downloaded_files <- download_files osm_handler;;
      match downloaded_files with
      | [] => logger_error "No files were downloaded or found locally"
      | _ =>
          merged_file <- merge_files downloaded_files
            (OSM_DIR g +:+ "/" +:+ output_name +:+ ".osm.pbf");;
          (* [if not merged_file]: [None] and the empty string are false *)
          match merged_file with
          | None => logger_error "Failed to merge files"
          | Some merged_file =>
              if String.eqb merged_file "" then
                logger_error "Failed to merge files"
              else if S3_ENABLED g then
                upload_success <-
                  upload_to_r2 merged_file
                    (bucket_name (S3_CONFIG g)) (endpoint_url (S3_CONFIG g))
                    (access_key_id (S3_CONFIG g))
                    (access_key_secret (S3_CONFIG g));;
                if upload_success then
                  logger_info "Process completed successfully"
                else logger_error "Process completed with errors"
              else
                logger_info ("Upload to " +:+ endpoint_url (S3_CONFIG g)
                             +:+ " is disabled...")
          end
      end
  end.

End Handler.

(** *** The script, run as [__main__] *)

Definition script : M unit :=
  g <- module_init;;
  main g.

End Program.

(** The exit status the interpreter gives the process: 0 when the script
    runs to its end, the code of a [SystemExit] (0 for [sys.exit()], which
    carries [None]), 1 for an uncaught error. *)
Definition exit_status {A} (r : result A) : Z :=
  match r with
  | Ok _ => 0
  | Raise (SystemExit None) => 0
  | Raise (SystemExit (Some code)) => code
  | Raise (Error _) => 1
  end.

(** ** Vocabulary of the properties *)

(** [extends P h h']: [h'] is [h] followed by calls that all satisfy [P]. *)
Definition extends (P : call → Prop) (h h' : list call) : Prop :=
  ∃ cs, h' = h ++ cs ∧ Forall P cs.

(** [stable f R m]: whatever [m] does and however it ends, the aspect [f]
    of the world moves along [R]. *)
Definition stable {A B} (f : world → B) (R : relation B) (m : M A) : Prop :=
  ∀ w r w', m w = (r, w') → R (f w) (f w').

(** The calls of the upload: building the storage client and putting the
    object. *)
Definition is_upload_call (c : call) : bool :=
  match c with
  | Boto3Client _ _ _ | UploadFileobj _ _ => true
  | _ => false
  end.

(** The calls into the merge library. *)
Definition is_merge_call (c : call) : bool :=
  match c with
  | SimpleWriter _ | MergeInputReader | AddFile _ | Apply => true
  | _ => false
  end.

(** The number of records logged at level [ERROR]. *)
Definition is_error (r : level * string) : bool :=
  match r.1 with
  | ERROR => true
  | _ => false
  end.

Definition count_errors (l : list (level * string)) : nat :=
  length (List.filter is_error l).

(** [Path(p).is_file()] in a world. *)
Definition is_regular_file (w : world) (p : string) : bool :=
  match fs w !! p with
  | Some n => negb (is_dir n)
  | None => false
  end.

(** The text of the file at [p], as text mode hands it out. *)
Definition text_of (w : world) (p : string) : string :=
  match fs w !! p with
  | Some n => PyStr.universal_newlines (data n)
  | None => ""
  end.

(** The local file of a location: the name [download_files] builds from
    the part after the first slash. *)
Definition local_file (g : globals) (loc : string) : option string :=
  match PyStr.split "/" loc !! 1%nat with
  | Some country =>
      Some (DOWNLOAD_DIR g +:+ "/" +:+ country +:+ "-latest.osm.pbf")
  | None => None
  end.

(** The address [download_files] asks for a location. *)
Definition remote_url (self : OSMDownloaderMerger) (loc : string) : string :=
  base_url self +:+ "/" +:+ loc +:+ "-latest.osm.pbf".

(** The error [requests.get] and [raise_for_status] raise for an address,
    if any: the failure of the request itself, or [HTTPError] for an
    answer with a 4xx or 5xx status. *)
Definition request_error (ext : externals) (h : list call) (url : string)
  : option error :=
  match fault ext h (Get url) with
  | Some e => Some e
  | None =>
      let msg := http_error_msg (answer ext h url) in
      if negb (String.eqb msg "") then Some (mk_error HTTPError msg)
      else None
  end.

(** A line that assigns [value] to [key]: stripped, it is no comment and
    reads [key=value], the ["="] being its first. *)
Definition assigns (line key value : string) : Prop :=
  PyStr.strip line = key +:+ String "=" value
  ∧ PyStr.contains "=" key = false
  ∧ PyStr.startswith "#" key = false.

(** The environment after the variables of the file are applied. *)
Definition applied (override : bool) (vars : dict)
    (env : gmap string string) (key : string) : option string :=
  if override then
    match dict_get vars key with
    | Some v => Some v
    | None => env !! key
    end
  else
    match env !! key with
    | Some old => Some old
    | None => dict_get vars key
    end.

(** ** Some worlds to run the script in *)

Module Scenario.

Definition day (n : Z) : datetime := mk_datetime n 0 0.

Definition no_fault : list call → call → option error := fun _ _ => None.

Definition ok_response : response :=
  mk_response 200 "OK" "https://osm.example/" ["PBF"; "DATA"] None.
Definition not_found : response :=
  mk_response 404 "Not Found"
    "https://osm.example/africa/togo-latest.osm.pbf" [] None.

(** A server that has no extract for Togo and one for every other
    place; the clock stands at day 100. *)
Definition togo_missing : externals :=
  mk_externals no_fault
    (fun _ url =>
       if String.eqb url "https://osm.example/africa/togo-latest.osm.pbf"
       then not_found else ok_response)
    (fun _ => day 100)
    (fun texts => fold_right String.append "" texts)
    (fun _ => inr false).

(** A server that answers every request. *)
Definition all_fine : externals :=
  mk_externals no_fault (fun _ _ => ok_response) (fun _ => day 100)
    (fun texts => fold_right String.append "" texts)
    (fun _ => inr false).

(** The merge library fails when the merge is applied. *)
Definition apply_fails : externals :=
  mk_externals
    (fun _ c => match c with
                | Apply => Some (mk_error RuntimeError "osmium: bad input")
                | _ => None
                end)
    (fun _ _ => ok_response) (fun _ => day 100)
    (fun texts => fold_right String.append "" texts)
    (fun _ => inr false).

(** Deleting is denied. *)
Definition unlink_denied : externals :=
  mk_externals
    (fun _ c => match c with
                | Unlink _ => Some (mk_error PermissionError "denied")
                | _ => None
                end)
    (fun _ _ => ok_response) (fun _ => day 100)
    (fun texts => fold_right String.append "" texts)
    (fun _ => inr false).

Definition LF : string := String "010" "".

Definition env_text : string :=
  "A=1" +:+ LF +:+ "B=2" +:+ LF +:+ "# a comment" +:+ LF +:+ LF.

Definition empty_world : world := mk_world ∅ ∅ ∅ [] [].

(** [.osm.env] holds [env_text]; the environment has [A=9]. *)
Definition env_world : world :=
  mk_world {[ ".osm.env" := mk_node false (day 1) env_text ]}
           {[ "A" := "9" ]} ∅ [] [].

(** Two lines give [A]; the environment has [A=9]. *)
Definition dup_world : world :=
  mk_world {[ ".osm.env" :=
                mk_node false (day 1) ("A=1" +:+ LF +:+ "A=2" +:+ LF) ]}
           {[ "A" := "9" ]} ∅ [] [].

Definition test_globals : globals :=
  mk_globals ["africa/togo"; "africa/benin"] "./" ".//osm_downloads"
    ".//openstreetmap" (Some "https://osm.example") true
    (mk_storage_config "bucket" "https://r2.example" "id" "secret").

Definition two_places : OSMDownloaderMerger :=
  mk_handler "https://osm.example" ["africa/togo"; "africa/benin"].

Definition togo_file : string := ".//osm_downloads/togo-latest.osm.pbf".
Definition benin_file : string := ".//osm_downloads/benin-latest.osm.pbf".

(** A copy of the Togo extract, eight days old on day 100. *)
Definition stale_world : world :=
  mk_world {[ togo_file := mk_node false (day 92) "OLD" ]} ∅ ∅ [] [].

(** The directories are there, and a merged file from an earlier run. *)
Definition merged_world : world :=
  mk_world {[ ".//openstreetmap/all.osm.pbf" := mk_node false (day 92) "OLD";
              ".//openstreetmap" := mk_node true (day 1) "";
              ".//osm_downloads" := mk_node true (day 1) "" ]} ∅ ∅ [] [].

(** No source address. *)
Definition no_source : globals :=
  mk_globals ["africa/togo"; "africa/benin"] "./" ".//osm_downloads"
    ".//openstreetmap" None false
    (mk_storage_config "" "https://None.r2.cloudflarestorage.com" "" "").

(** [.osm.env] names the source and one location. *)
Definition ready_world : world :=
  mk_world {[ ".osm.env" :=
                mk_node false (day 1)
                  ("OSM_SOURCE=https://osm.example" +:+ LF
                   +:+ "OSM_LOCATIONS=africa/togo" +:+ LF) ]}
           ∅ ∅ [] [].

End Scenario.


(** ** Further vocabulary and worlds *)

(** A dictionary whose every item [os.environ] takes. *)
Definition accepted (d : dict) : Prop :=
  Forall (fun kv => putenv_error kv.1 kv.2 = None) d.

(** A local file that is there and less than a week old. *)
Definition is_fresh (ext : externals) (w : world) (filename : string) : bool :=
  match fs w !! filename with
  | None => false
  | Some n =>
      negb (bool_decide
              (week_us <= to_microseconds (now ext (history w))
                          - to_microseconds (mtime n)))
  end.

(** A download that goes through: the request is answered without a
    4xx or 5xx status, the local file is opened, and the stream does
    not break. *)
Definition fetched (ext : externals) (self : OSMDownloaderMerger)
    (loc filename : string) (w : world) : bool :=
  let url := remote_url self loc in
  match request_error ext (history w) url with
  | Some _ => false
  | None =>
      match fault ext (history w ++ [Get url]) (OpenWrite filename) with
      | Some _ => false
      | None =>
          match stream_error (answer ext (history w) url) with
          | Some _ => false
          | None => true
          end
      end
  end.

(** The list the amended claim speaks of: in the order of the
    locations, the local file of each location whose file is fresh or
    whose download goes through, and nothing for the others. The world
    each location meets is the one the turns before it have left. *)
Fixpoint expected_paths (ext : externals) (g : globals)
    (self : OSMDownloaderMerger) (locs : list string) (w : world)
  : list string :=
  match locs with
  | [] => []
  | loc :: rest =>
      match local_file g loc with
      | None => []
      | Some filename =>
          (if is_fresh ext w filename || fetched ext self loc filename w
           then [filename] else [])
          ++ expected_paths ext g self rest (download_one ext g self loc w).2
      end
  end.

(** Lines whose every assignment [os.environ] takes. *)
Definition lines_accepted (lines : list string) : Prop :=
  ∀ l key value, l ∈ lines → assigns l key value →
                 putenv_error key value = None.

(** The calls of the constructor and of the downloads: making a
    directory, asking the server, opening a local file for writing. *)
Definition is_fetch_call (c : call) : bool :=
  match c with
  | Makedirs _ | Get _ | OpenWrite _ => true
  | _ => false
  end.

(** What successive [f.write(chunk)] leave in a file that was empty. *)
Definition written (cs : list string) : string :=
  fold_left String.append cs "".

(** [os.getenv(key, default)] on an environment. *)
Definition getenv_or (env : gmap string string) (key default : string) : string :=
  match env !! key with
  | Some v => v
  | None => default
  end.

Module Cases.

Import Scenario.

(** One location only. *)
Definition togo_only : globals :=
  mk_globals ["africa/togo"] "./" ".//osm_downloads"
    ".//openstreetmap" (Some "https://osm.example") true
    (mk_storage_config "bucket" "https://r2.example" "id" "secret").

Definition one_place : OSMDownloaderMerger :=
  mk_handler "https://osm.example" ["africa/togo"].

(** A copy of the Togo extract, one day old on day 100. *)
Definition fresh_world : world :=
  mk_world {[ togo_file := mk_node false (day 99) "NEW" ]} ∅ ∅ [] [].

(** Local files cannot be opened for writing. *)
Definition write_denied : externals :=
  mk_externals
    (fun _ c => match c with
                | OpenWrite _ => Some (mk_error PermissionError "denied")
                | _ => None
                end)
    (fun _ _ => ok_response) (fun _ => day 100)
    (fun texts => fold_right String.append "" texts)
    (fun _ => inr false).

(** The connection breaks after the first chunk. *)
Definition broken_stream : externals :=
  mk_externals no_fault
    (fun _ _ => mk_response 200 "OK" "https://osm.example/" ["PBF"]
                  (Some (mk_error ConnectionError "connection broken")))
    (fun _ => day 100)
    (fun texts => fold_right String.append "" texts)
    (fun _ => inr false).

(** The configuration file cannot be read. *)
Definition read_denied : externals :=
  mk_externals
    (fun _ c => match c with
                | OpenRead _ => Some (mk_error PermissionError "denied")
                | _ => None
                end)
    (fun _ _ => ok_response) (fun _ => day 100)
    (fun texts => fold_right String.append "" texts)
    (fun _ => inr false).


(** The upload is switched off. *)
Definition upload_off : globals :=
  mk_globals ["africa/togo"; "africa/benin"] "./" ".//osm_downloads"
    ".//openstreetmap" (Some "https://osm.example") false
    (mk_storage_config "bucket" "https://r2.example" "id" "secret").

End Cases.

(** * Properties *)

(** ** Strings *)

Section StringFacts.

Import PyStr.

Lemma contains_count c s : contains c s = false ↔ count c s = 0%nat.
Proof.
  induction s as [|a s IH]; simpl; [done|].
  destruct (Ascii.eqb a c); [split; discriminate | exact IH].
Qed.

Lemma split_not_nil sep s : split sep s ≠ [].
Proof.
  destruct s as [|a s]; simpl; [done|].
  destruct (Ascii.eqb a sep); [done|].
  destruct (split sep s); done.
Qed.

(** One piece more than there are separators. *)
Lemma split_length sep s : length (split sep s) = S (count sep s).
Proof.
  induction s as [|a s IH]; simpl; [done|].
  destruct (Ascii.eqb a sep); simpl; [by rewrite IH|].
  destruct (split sep s) eqn:E; simpl in *; [discriminate | done].
Qed.

Lemma split_without sep s : contains sep s = false → split sep s = [s].
Proof.
  induction s as [|a s IH]; simpl; [done|].
  destruct (Ascii.eqb a sep); [discriminate|].
  intros H. by rewrite (IH H).
Qed.

(** With exactly one separator the pieces are what stands before it and
    what stands after it. *)
Lemma split_once sep s :
  count sep s = 1%nat →
  ∃ a b, split sep s = [a; b] ∧ s = a +:+ String sep b
         ∧ contains sep a = false ∧ contains sep b = false.
Proof.
  induction s as [|c s IH]; simpl; [discriminate|].
  destruct (Ascii.eqb c sep) eqn:E.
  - intros H. injection H as H. apply contains_count in H.
    apply Ascii.eqb_eq in E as ->.
    exists EmptyString, s. by rewrite (split_without _ _ H).
  - intros H. destruct (IH H) as (a & b & -> & -> & Ha & Hb).
    exists (String c a), b. simpl. by rewrite E.
Qed.

Lemma split1_at_first sep k v :
  contains sep k = false → split1 sep (k +:+ String sep v) = [k; v].
Proof.
  induction k as [|a k IH]; simpl.
  - by rewrite Ascii.eqb_refl.
  - destruct (Ascii.eqb a sep); [discriminate|].
    intros H. by rewrite (IH H).
Qed.

(** Whatever the line, cutting it at the first separator it contains
    gives exactly two pieces. *)
Lemma split1_two sep s :
  contains sep s = true → ∃ k v, split1 sep s = [k; v].
Proof.
  induction s as [|a s IH]; simpl; [discriminate|].
  destruct (Ascii.eqb a sep); [by eauto|].
  intros H. destruct (IH H) as (k & v & ->). by eauto.
Qed.

Lemma rfind_lower c s : -1 <= rfind c s.
Proof.
  induction s as [|a s IH]; simpl; [lia|].
  destruct (0 <=? rfind c s) eqn:E; [lia|].
  destruct (Ascii.eqb a c); lia.
Qed.

Lemma rfind_absent c s : rfind c s = -1 ↔ contains c s = false.
Proof.
  induction s as [|a s IH]; simpl; [done|].
  pose proof (rfind_lower c s) as Hl.
  destruct (0 <=? rfind c s) eqn:E.
  - apply Z.leb_le in E.
    destruct (Ascii.eqb a c); [split; [lia | discriminate]|].
    rewrite <- IH. lia.
  - apply Z.leb_gt in E.
    destruct (Ascii.eqb a c); [split; [lia | discriminate]|].
    rewrite <- IH. lia.
Qed.

(** [basename] by cases on the first character: while a slash is ahead,
    the first character is dropped. *)
Lemma basename_cons a p :
  basename (String a p) =
  if contains "/" (String a p) then basename p else String a p.
Proof.
  unfold basename, slice_from. simpl rfind.
  pose proof (rfind_lower "/" p) as Hl.
  destruct (0 <=? rfind "/" p) eqn:E.
  - apply Z.leb_le in E.
    assert (contains "/" p = true) as Hc.
    { destruct (contains "/" p) eqn:Hc; [done|].
      apply rfind_absent in Hc. lia. }
    simpl contains. rewrite Hc. destruct (Ascii.eqb a "/");
      (replace (Z.to_nat (rfind "/" p + 1 + 1)) with (S (Z.to_nat (rfind "/" p + 1)))
        by lia); done.
  - apply Z.leb_gt in E. assert (rfind "/" p = -1) as Hr by lia.
    pose proof (proj1 (rfind_absent "/" p) Hr) as Hc.
    simpl contains. rewrite Hc, Hr.
    destruct (Ascii.eqb a "/"); done.
Qed.

Lemma basename_plain p : contains "/" p = false → basename p = p.
Proof.
  destruct p as [|a p]; [done|].
  intros H. by rewrite basename_cons, H.
Qed.

(** The base name holds no slash. *)
Lemma basename_no_slash p : contains "/" (basename p) = false.
Proof.
  induction p as [|a p IH]; [done|].
  rewrite basename_cons. destruct (contains "/" (String a p)) eqn:E; done.
Qed.

(** The directory part, whatever it is, is dropped. *)
Lemma contains_join c dir name : contains c (dir +:+ String c name) = true.
Proof.
  induction dir as [|b dir IH]; simpl.
  - by rewrite Ascii.eqb_refl.
  - by destruct (Ascii.eqb b c).
Qed.

Lemma basename_join dir name :
  contains "/" name = false → basename (dir +:+ String "/" name) = name.
Proof.
  intros H. induction dir as [|a dir IH].
  - change (basename (String "/" name) = name).
    rewrite basename_cons. simpl. by apply basename_plain.
  - change (basename (String a (dir +:+ String "/" name)) = name).
    rewrite basename_cons, IH.
    change (String a (dir +:+ String "/" name))
      with (String a dir +:+ String "/" name).
    by rewrite contains_join.
Qed.

End StringFacts.

(** ** Durations *)

Section TimeFacts.

(** The [days] of a difference of two dates: the whole days in it,
    rounded down. *)
Lemma days_datetime_sub a b :
  days (datetime_sub a b) =
  (to_microseconds a - to_microseconds b) / (86400 * 1000000).
Proof.
  unfold datetime_sub, new_timedelta, to_microseconds. simpl.
  set (d := dt_ordinal a - dt_ordinal b).
  set (s := dt_second a - dt_second b).
  set (u := dt_microsecond a - dt_microsecond b).
  replace ((dt_ordinal a * 86400 + dt_second a) * 1000000 + dt_microsecond a
           - ((dt_ordinal b * 86400 + dt_second b) * 1000000 + dt_microsecond b))
    with ((d * 86400 + s) * 1000000 + u) by (unfold d, s, u; lia).
  rewrite (Z.mul_comm 86400 1000000).
  rewrite <- Z.div_div by lia.
  rewrite Z.div_add_l by lia.
  replace (d * 86400 + s + u / 1000000) with (d * 86400 + (s + u / 1000000)) by lia.
  rewrite Z.div_add_l by lia. done.
Qed.

Lemma week_old a b :
  (7 <=? days (datetime_sub a b)) =
  bool_decide (week_us <= to_microseconds a - to_microseconds b).
Proof.
  rewrite days_datetime_sub. unfold week_us.
  set (x := to_microseconds a - to_microseconds b).
  destruct (bool_decide_reflect (7 * 86400 * 1000000 <= x)) as [H|H].
  - apply Z.leb_le. apply Z.div_le_lower_bound; lia.
  - apply Z.leb_gt.
    apply Z.div_lt_upper_bound; lia.
Qed.

End TimeFacts.

(** ** Running computations *)

Section RunFacts.

Context {A C : Type}.

Lemma bind_ok (m : M A) (k : A → M C) w a w' :
  m w = (Ok a, w') → bind m k w = k a w'.
Proof. unfold bind. by intros ->. Qed.

Lemma bind_raise (m : M A) (k : A → M C) w r w' :
  m w = (Raise r, w') → bind m k w = (Raise r, w').
Proof. unfold bind. by intros ->. Qed.

Lemma try_ok (body : M A) clauses w a w' :
  body w = (Ok a, w') → try_except body clauses w = (Ok a, w').
Proof. unfold try_except. by intros ->. Qed.

Lemma try_caught (body : M A) clauses w e w' h :
  body w = (Raise (Error e), w') → find_handler e clauses = Some h →
  try_except body clauses w = h e w'.
Proof. unfold try_except. by intros -> ->. Qed.

End RunFacts.

(** Every error is an instance of [Exception]. *)
Lemma issubclass_Exception c : issubclass c Exception = true.
Proof. by destruct c. Qed.

#[global] Instance extends_preorder P : PreOrder (extends P).
Proof.
  split.
  - intros h. exists []. by rewrite app_nil_r.
  - intros h1 h2 h3 (cs1 & -> & H1) (cs2 & -> & H2).
    exists (cs1 ++ cs2). rewrite app_assoc. split; [done|].
    by apply Forall_app.
Qed.

Lemma extends_one (P : call → Prop) h c : P c → extends P h (h ++ [c]).
Proof. intros H. exists [c]. split; [done|]. by constructor. Qed.

Lemma count_errors_snoc l lv msg :
  count_errors (l ++ [(lv, msg)]) =
  (count_errors l + if is_error (lv, msg) then 1 else 0)%nat.
Proof.
  unfold count_errors. rewrite List.filter_app, length_app. simpl.
  by destruct (is_error (lv, msg)).
Qed.

(** *** How an aspect of the world moves *)

Section Stable.

Context {B : Type} (f : world → B) (R : relation B) `{!PreOrder R}.

Lemma stable_ret {A} (a : A) : stable f R (ret a).
Proof. intros w r w' [= <- <-]. reflexivity. Qed.

Lemma stable_raise {A} r : stable f R (@raise A r).
Proof. intros w r' w' [= <- <-]. reflexivity. Qed.

Lemma stable_lift {A} (r : result A) : stable f R (lift r).
Proof. intros w r' w' [= <- <-]. reflexivity. Qed.

Lemma stable_bind {A C} (m : M A) (k : A → M C) :
  stable f R m → (∀ a, stable f R (k a)) → stable f R (bind m k).
Proof.
  intros Hm Hk w r w'. unfold bind.
  destruct (m w) as [[a|r0] w1] eqn:E.
  - intros H. etransitivity; [exact (Hm _ _ _ E) | exact (Hk _ _ _ _ H)].
  - intros [= <- <-]. exact (Hm _ _ _ E).
Qed.

Lemma find_handler_in {A} e (clauses : list (exc_class * (error → M A))) h :
  find_handler e clauses = Some h → ∃ c, (c, h) ∈ clauses.
Proof.
  induction clauses as [|[c h'] rest IH]; simpl; [discriminate|].
  destruct (issubclass (err_class e) c).
  - intros [= ->]. exists c. by left.
  - intros H. destruct (IH H) as [c' Hc]. exists c'. by right.
Qed.

Lemma stable_try {A} (body : M A) clauses :
  stable f R body →
  Forall (fun ch => ∀ e, stable f R (ch.2 e)) clauses →
  stable f R (try_except body clauses).
Proof.
  intros Hb Hc w r w'. unfold try_except.
  destruct (body w) as [[a|[e|code]] w1] eqn:E.
  - intros [= <- <-]. exact (Hb _ _ _ E).
  - destruct (find_handler e clauses) as [h|] eqn:Eh.
    + intros H. destruct (find_handler_in _ _ _ Eh) as [c Hin].
      rewrite Forall_forall in Hc. specialize (Hc _ Hin e). simpl in Hc.
      etransitivity; [exact (Hb _ _ _ E) | exact (Hc _ _ _ H)].
    + intros [= <- <-]. exact (Hb _ _ _ E).
  - intros [= <- <-]. exact (Hb _ _ _ E).
Qed.

(** A computation that only reads. *)
Lemma stable_reader {A} (m : M A) :
  (∀ w, (m w).2 = w) → stable f R m.
Proof. intros H w r w' E. specialize (H w). rewrite E in H. simpl in H. by subst. Qed.

Lemma stable_modify (g : world → world) :
  (∀ w, R (f w) (f (g w))) → stable f R (modify g).
Proof. intros H w r w' [= <- <-]. apply H. Qed.

Lemma stable_invoke ext c :
  (∀ w, R (f w) (f (add_call c w))) → stable f R (invoke ext c).
Proof.
  intros H w r w'. unfold invoke.
  destruct (fault ext (history w) c); intros [= <- <-]; apply H.
Qed.

Lemma stable_log (lv : level) msg :
  (∀ w, R (f w) (f (add_log lv msg w))) →
  stable f R (fun w => (Ok tt, add_log lv msg w)).
Proof. intros H w r w' [= <- <-]. apply H. Qed.

End Stable.

Ltac stable_side :=
  simpl;
  first [ reflexivity
        | apply extends_one; auto
        | rewrite count_errors_snoc; simpl; lia
        | idtac ].

Ltac stable_step :=
  first
    [ apply stable_ret; typeclasses eauto
    | apply stable_raise; typeclasses eauto
    | apply stable_lift; typeclasses eauto
    | apply stable_bind; [typeclasses eauto | | intros ?]
    | apply stable_try;
        [typeclasses eauto | | repeat (constructor; [intros ?; simpl |])]
    | apply stable_modify; intros ?; stable_side
    | apply stable_invoke; intros ?; stable_side
    | apply stable_log; intros ?; stable_side
    | apply stable_reader; [typeclasses eauto | intros ?; reflexivity]
    | match goal with
      | |- stable _ _ (match ?x with _ => _ end) => destruct x
      end
    | progress unfold raise_for_status, index, eval_setting ].

Ltac stable_auto := repeat stable_step; eauto.

(** ** The calls each method makes *)

Section Calls.

Variable ext : externals.
Variable g : globals.

(** [P] holds of every call that is not part of an upload. *)
Variable P : call → Prop.
Hypothesis P_other : ∀ c, is_upload_call c = false → P c.

Local Abbreviation quiet m := (stable history (extends P) m).

Lemma calls_write_chunks p cs broken : quiet (write_chunks ext p cs broken).
Proof.
  induction cs as [|c cs IH]; simpl.
  - stable_auto.
  - apply stable_bind; [typeclasses eauto | stable_auto | intros _; exact IH].
Qed.

Lemma calls_needs_download p : quiet (needs_download ext p).
Proof. stable_auto. Qed.

Lemma calls_clean_old_merge p : quiet (clean_old_merge ext p).
Proof. stable_auto. Qed.

Lemma calls_download_try loc filename url :
  quiet (download_try ext loc filename url).
Proof.
  unfold download_try.
  do 3 (apply stable_bind; [typeclasses eauto | solve [stable_auto] | intros ?]).
  apply stable_bind; [typeclasses eauto | apply calls_write_chunks | intros _].
  stable_auto.
Qed.

Lemma calls_download_one self loc : quiet (download_one ext g self loc).
Proof.
  unfold download_one. cbv zeta.
  apply stable_bind; [typeclasses eauto | stable_auto | intros country].
  apply stable_bind;
    [typeclasses eauto | apply calls_needs_download | intros needed].
  destruct needed; [|stable_auto].
  stable_step; [stable_auto|].
  stable_step; try solve [stable_auto].
  apply calls_download_try.
Qed.

Lemma calls_download_loop self locs acc :
  quiet (download_loop ext g self locs acc).
Proof.
  revert acc. induction locs as [|loc locs IH]; intros acc; simpl.
  - stable_auto.
  - apply stable_bind;
      [typeclasses eauto | apply calls_download_one | intros [f|]; apply IH].
Qed.

Lemma calls_download_files self : quiet (download_files ext g self).
Proof. apply calls_download_loop. Qed.

Lemma calls_add_files inputs reader : quiet (add_files ext inputs reader).
Proof.
  revert reader.
  induction inputs as [|f inputs IH]; intros reader; simpl.
  - stable_auto.
  - do 3 (apply stable_bind; [typeclasses eauto | solve [stable_auto] | intros ?]).
    apply IH.
Qed.

Lemma calls_merge_files_try inputs out :
  quiet (merge_files_try ext inputs out).
Proof.
  unfold merge_files_try.
  apply stable_bind; [typeclasses eauto | stable_auto | intros _].
  apply stable_bind;
    [typeclasses eauto | apply calls_clean_old_merge | intros _].
  do 4 (apply stable_bind; [typeclasses eauto | solve [stable_auto] | intros ?]).
  apply stable_bind; [typeclasses eauto | apply calls_add_files | intros ?].
  stable_auto.
Qed.

Lemma calls_merge_files inputs out : quiet (merge_files ext inputs out).
Proof.
  unfold merge_files.
  stable_step; try solve [stable_auto].
  apply calls_merge_files_try.
Qed.

Lemma calls_init source locs : quiet (init ext g source locs).
Proof. stable_auto. Qed.

End Calls.

(** ** The freshness check *)

Lemma needs_download_run ext p w :
  needs_download ext p w =
  (Ok match fs w !! p with
      | None => true
      | Some n => 7 <=? days (datetime_sub (now ext (history w)) (mtime n))
      end, w).
Proof.
  unfold needs_download, os_path_exists, getmtime_datetime, lookup_node,
    datetime_now, bind, ret.
  destruct (fs w !! p) eqn:E; simpl; rewrite ?E; reflexivity.
Qed.

(** A path with no file, or with one that is a week old or older. *)
Lemma needs_download_old ext p w :
  (∀ n, fs w !! p = Some n →
        week_us <= to_microseconds (now ext (history w))
                   - to_microseconds (mtime n)) →
  needs_download ext p w = (Ok true, w).
Proof.
  intros H. rewrite needs_download_run.
  destruct (fs w !! p) as [n|]; [|done].
  rewrite week_old. by rewrite (bool_decide_eq_true_2 _ (H n eq_refl)).
Qed.

(** C5. [needs_download] returns true for a path that does not exist;
    for a path that exists it returns true exactly when the time from the
    file's modification to now is seven days or more, and false when it
    is less. It changes nothing. *)
Theorem needs_download_spec ext p w :
  needs_download ext p w =
  (Ok match fs w !! p with
      | None => true
      | Some n =>
          bool_decide (week_us <= to_microseconds (now ext (history w))
                                  - to_microseconds (mtime n))
      end, w).
Proof.
  rewrite needs_download_run.
  destruct (fs w !! p) as [n|]; [|done].
  by rewrite week_old.
Qed.

(** A file modified seven days ago to the microsecond is to be
    downloaded; one microsecond less and it is not. *)
Example needs_download_at_seven_days :
  let w := mk_world {[ "f" := mk_node false (mk_datetime 93 0 0) "" ]} ∅ ∅ [] [] in
  (needs_download Scenario.all_fine "f" w).1 = Ok true.
Proof. reflexivity. Qed.

Example needs_download_just_under_seven_days :
  let w := mk_world {[ "f" := mk_node false (mk_datetime 93 0 1) "" ]} ∅ ∅ [] [] in
  (needs_download Scenario.all_fine "f" w).1 = Ok false.
Proof. reflexivity. Qed.

(** ** Locations *)

Lemma index_in_range {A} (l : list A) i x w :
  l !! i = Some x → index l i w = (Ok x, w).
Proof. unfold index. by intros ->. Qed.

Lemma index_out_of_range {A} (l : list A) i w :
  l !! i = None →
  index l i w = (Raise (Error (mk_error IndexError "list index out of range")), w).
Proof. unfold index. by intros ->. Qed.

(** C2. A location with exactly one slash splits into its region and its
    country, and the country, the second piece, is there to be taken, so
    [download_files] gets its local file name without raising. A location
    with no slash has one piece only: taking the second one is out of
    range, and the loop body raises [IndexError]. *)
Theorem location_split ext g self loc w :
  (PyStr.count "/" loc = 1%nat →
   ∃ region country,
     PyStr.split "/" loc = [region; country]
     ∧ loc = region +:+ String "/" country
     ∧ index (PyStr.split "/" loc) 1 w = (Ok country, w)
     ∧ local_file g loc
       = Some (DOWNLOAD_DIR g +:+ "/" +:+ country +:+ "-latest.osm.pbf"))
  ∧ (PyStr.count "/" loc = 0%nat →
     PyStr.split "/" loc !! 1%nat = None
     ∧ download_one ext g self loc w
       = (Raise (Error (mk_error IndexError "list index out of range")), w)).
Proof.
  split.
  - intros H. destruct (split_once _ _ H) as (region & country & Hs & Hl & _).
    exists region, country. unfold local_file. rewrite Hs. done.
  - intros H. apply contains_count in H.
    unfold download_one. rewrite (split_without _ _ H).
    done.
Qed.

Lemma location_split_witness :
  (∃ region country,
     PyStr.split "/" "africa/togo" = [region; country]
     ∧ "africa/togo" = region +:+ String "/" country
     ∧ index (PyStr.split "/" "africa/togo") 1 Scenario.empty_world
       = (Ok country, Scenario.empty_world)
     ∧ local_file Scenario.test_globals "africa/togo"
       = Some (DOWNLOAD_DIR Scenario.test_globals +:+ "/" +:+ country
               +:+ "-latest.osm.pbf"))
  ∧ (PyStr.split "/" "africa" !! 1%nat = None
     ∧ download_one Scenario.all_fine Scenario.test_globals
         Scenario.two_places "africa" Scenario.empty_world
       = (Raise (Error (mk_error IndexError "list index out of range")),
          Scenario.empty_world)).
Proof.
  split.
  - apply (proj1 (location_split Scenario.all_fine Scenario.test_globals
                    Scenario.two_places "africa/togo" Scenario.empty_world)).
    reflexivity.
  - apply (proj2 (location_split Scenario.all_fine Scenario.test_globals
                    Scenario.two_places "africa" Scenario.empty_world)).
    reflexivity.
Defined.

(** ** Deleting the old merged file *)

Lemma add_log_history lv msg w : history (add_log lv msg w) = history w.
Proof. done. Qed.

(** However the deletion goes, [clean_old_merge] returns, having made
    the one call. *)
Lemma clean_old_merge_run ext p w :
  ∃ w', clean_old_merge ext p w = (Ok tt, w')
        ∧ history w' = history w ++ [Unlink p].
Proof.
  unfold clean_old_merge, path_unlink, try_except, bind, invoke,
    logger_info, logger_error, lookup_node, raise_error, raise, modify.
  simpl.
  destruct (fault ext (history w) (Unlink p)) as [e|]; simpl.
  - destruct (issubclass (err_class e) FileNotFoundError); [by eauto|].
    destruct (issubclass (err_class e) PermissionError); [by eauto|].
    rewrite issubclass_Exception. by eauto.
  - destruct (fs w !! p) as [n|]; simpl; [|by eauto].
    destruct (is_dir n); simpl; by eauto.
Qed.

(** ** Stepping through a method *)

Section Steps.

Variable ext : externals.
Context {A : Type}.

Lemma bind_logger_info msg (k : unit → M A) w :
  bind (logger_info msg) k w = k tt (add_log INFO msg w).
Proof. reflexivity. Qed.

Lemma bind_logger_error msg (k : unit → M A) w :
  bind (logger_error msg) k w = k tt (add_log ERROR msg w).
Proof. reflexivity. Qed.

Lemma bind_invoke c (k : unit → M A) w :
  bind (invoke ext c) k w =
  match fault ext (history w) c with
  | Some e => (Raise (Error e), add_call c w)
  | None => k tt (add_call c w)
  end.
Proof. unfold bind, invoke. by destruct (fault ext (history w) c). Qed.

Lemma bind_datetime_now (k : datetime → M A) w :
  bind (datetime_now ext) k w = k (now ext (history w)) w.
Proof. reflexivity. Qed.

Lemma bind_modify f (k : unit → M A) w : bind (modify f) k w = k tt (f w).
Proof. reflexivity. Qed.

Lemma bind_lookup_node p (k : option node → M A) w :
  bind (lookup_node p) k w = k (fs w !! p) w.
Proof. reflexivity. Qed.

Lemma bind_get_history (k : list call → M A) w :
  bind get_history k w = k (history w) w.
Proof. reflexivity. Qed.

Lemma bind_assoc {B C} (m : M B) (k1 : B → M C) (k2 : C → M A) w :
  bind (bind m k1) k2 w = bind m (fun b => bind (k1 b) k2) w.
Proof. unfold bind. by destruct (m w) as [[b|r] w']. Qed.

(** A lone [except Exception] clause takes every error. *)
Lemma try_except_Exception (body : M A) h w :
  try_except body [(Exception, h)] w =
  match body w with
  | (Raise (Error e), w') => h e w'
  | other => other
  end.
Proof.
  unfold try_except. destruct (body w) as [[a|[e|c]] w']; try done.
  simpl. by rewrite issubclass_Exception.
Qed.

End Steps.

(** ** Merging *)

Section Merge.

Variable ext : externals.

(** Adding the inputs makes merge calls only; if it raises, the call made
    last is the one that failed. *)
Lemma add_files_run inputs reader w :
  ∃ r w' cs,
    add_files ext inputs reader w = (r, w')
    ∧ history w' = history w ++ cs
    ∧ match r with
      | Ok _ => True
      | Raise (Error e) =>
          ∃ h c, history w' = h ++ [c] ∧ is_merge_call c = true
                 ∧ fault ext h c = Some e
      | Raise (SystemExit _) => False
      end.
Proof.
  revert reader w. induction inputs as [|f inputs IH]; intros reader w.
  - exists (Ok reader), w, []. simpl. by rewrite app_nil_r.
  - simpl. rewrite bind_logger_info, bind_invoke. simpl.
    destruct (fault ext (history w) (AddFile f)) as [e|] eqn:Ef.
    + eexists _, _, [AddFile f]. split; [done|]. split; [done|].
      exists (history w), (AddFile f). done.
    + rewrite bind_lookup_node.
      match goal with
      | |- context [add_files ext inputs ?rd ?w1] =>
          destruct (IH rd w1) as (r & w' & cs & -> & Hh & Hr)
      end.
      simpl in Hh. exists r, w', (AddFile f :: cs). split; [done|].
      split; [by rewrite Hh, <- app_assoc|]. done.
Qed.

(** The [try] block of [merge_files]: the deletion comes first and the
    writer is opened next, however the deletion went; the block returns
    the output path when no merge call fails, and otherwise raises the
    error of the failing call, which is the last one made. *)
Lemma merge_files_try_run inputs out w :
  ∃ r w' rest h c,
    merge_files_try ext inputs out w = (r, w')
    ∧ history w' = history w ++ Unlink out :: SimpleWriter out :: rest
    ∧ history w' = h ++ [c] ∧ is_merge_call c = true
    ∧ match r with
      | Ok o => o = Some out ∧ fault ext h c = None
      | Raise (Error e) => fault ext h c = Some e
      | Raise (SystemExit _) => False
      end.
Proof.
  unfold merge_files_try. rewrite bind_logger_info.
  destruct (clean_old_merge_run ext out
              (add_log INFO "Starting merge process" w)) as (w1 & Hc & H1).
  rewrite (bind_ok _ _ _ _ _ Hc). simpl in H1.
  rewrite bind_invoke.
  destruct (fault ext (history w1) (SimpleWriter out)) as [e|] eqn:E1.
  { eexists _, _, [], (history w1), _. split; [done|].
    split; [simpl; by rewrite H1, <- app_assoc|]. done. }
  rewrite bind_datetime_now, bind_modify, bind_invoke. simpl.
  destruct (fault ext (history w1 ++ [SimpleWriter out]) MergeInputReader)
    as [e|] eqn:E2.
  { eexists _, _, [MergeInputReader], (history w1 ++ [SimpleWriter out]), _.
    split; [done|].
    split; [simpl; by rewrite H1, <- !app_assoc|]. done. }
  match goal with
  | |- context [bind (add_files ext inputs []) _ ?w2] =>
      destruct (add_files_run inputs [] w2) as (r & w3 & cs & Ha & H3 & Hr)
  end.
  simpl in H3. rewrite H1, <- !app_assoc in H3. simpl in H3.
  destruct r as [reader|[e|code]]; [| |done].
  - rewrite (bind_ok _ _ _ _ _ Ha), bind_invoke.
    destruct (fault ext (history w3) Apply) as [e|] eqn:E3.
    + eexists _, _, (MergeInputReader :: cs ++ [Apply]), (history w3), Apply.
      split; [done|].
      split; [simpl; by rewrite H3, <- !app_assoc|]. done.
    + rewrite bind_datetime_now, bind_modify, bind_logger_info. simpl.
      eexists _, _, (MergeInputReader :: cs ++ [Apply]), (history w3), Apply.
      split; [done|].
      split; [simpl; by rewrite H3, <- !app_assoc|]. done.
  - rewrite (bind_raise _ _ _ _ _ Ha).
    destruct Hr as (h & c & Hh & Hm & Hf).
    eexists _, _, (MergeInputReader :: cs), h, c. done.
Qed.

(** [merge_files] as a whole. *)
Lemma merge_files_run inputs out w :
  ∃ r w' rest h c,
    merge_files ext inputs out w = (Ok r, w')
    ∧ history w' = history w ++ Unlink out :: SimpleWriter out :: rest
    ∧ history w' = h ++ [c] ∧ is_merge_call c = true
    ∧ r = match fault ext h c with
          | None => Some out
          | Some _ => None
          end.
Proof.
  destruct (merge_files_try_run inputs out w)
    as (r & w' & rest & h & c & Hrun & H1 & H2 & Hc & Hr).
  unfold merge_files. rewrite try_except_Exception, Hrun.
  destruct r as [o|[e|code]]; [| |done].
  - destruct Hr as [-> Hf]. exists (Some out), w', rest, h, c.
    by rewrite Hf.
  - rewrite bind_logger_error. eexists None, _, rest, h, c.
    rewrite Hr. done.
Qed.

End Merge.

(** C6. Deleting the old merged file never raises, whatever the path and
    however the deletion goes (no such file, permission denied, any other
    error); and in [merge_files] the writer of the merge library is opened
    right after the attempt to delete, however that attempt went. *)
Theorem clean_old_merge_never_raises ext inputs file_input w :
  (∃ w', clean_old_merge ext file_input w = (Ok tt, w'))
  ∧ (∃ rest,
       history (merge_files ext inputs file_input w).2
       = history w ++ Unlink file_input :: SimpleWriter file_input :: rest).
Proof.
  split.
  - destruct (clean_old_merge_run ext file_input w) as (w' & H & _). eauto.
  - destruct (merge_files_run ext inputs file_input w)
      as (r & w' & rest & h & c & -> & H & _).
    exists rest. done.
Qed.

(** With the deletion denied, the merge goes on and gives its output. *)
Example merge_after_denied_deletion :
  let run := merge_files Scenario.unlink_denied [] "all.osm.pbf"
               Scenario.empty_world in
  run.1 = Ok (Some "all.osm.pbf")
  ∧ history run.2
    = [Unlink "all.osm.pbf"; SimpleWriter "all.osm.pbf"; MergeInputReader; Apply]
  ∧ log run.2
    = [(INFO, "Starting merge process");
       (INFO, "Cleaning up old merged file..");
       (ERROR, "Permission denied: all.osm.pbf.");
       (INFO, "Successfully merged files into all.osm.pbf")].
Proof. by vm_compute. Qed.

(** C4. [merge_files] never raises: it returns the output path when no
    call into the merge library fails and [None] when one does, the
    failing call being the last one made. And when the merge gives
    [None], [main] logs the failure and returns without a single call of
    the upload. *)
Theorem merge_absent_stops_pipeline ext g w :
  (∀ inputs out w1,
     ∃ r w' h c,
       merge_files ext inputs out w1 = (Ok r, w')
       ∧ history w' = h ++ [c] ∧ is_merge_call c = true
       ∧ r = match fault ext h c with
             | None => Some out
             | Some _ => None
             end)
  ∧ (∀ source handler w0 files w1 w2,
       OSM_SOURCE g = Some source →
       init ext g source (all_locations g) w = (Ok handler, w0) →
       download_files ext g handler w0 = (Ok files, w1) →
       merge_files ext files
         (OSM_DIR g +:+ "/" +:+ output_name +:+ ".osm.pbf") w1
       = (Ok None, w2) →
       ∃ w', main ext g w = (Ok tt, w')
             ∧ extends (fun c => is_upload_call c = false)
                 (history w) (history w')).
Proof.
  split.
  - intros inputs out w1.
    destruct (merge_files_run ext inputs out w1)
      as (r & w' & rest & h & c & H & _ & H2 & Hc & Hr).
    by exists r, w', h, c.
  - intros source handler w0 files w1 w2 Hsrc Hinit Hdl Hmerge.
    pose proof (calls_init ext g _ (fun c H => H) _ _ _ _ _ Hinit) as E0.
    pose proof (calls_download_files ext g _ (fun c H => H) _ _ _ _ Hdl) as E1.
    pose proof (calls_merge_files ext _ (fun c H => H) _ _ _ _ _ Hmerge) as E2.
    unfold main. rewrite Hsrc.
    rewrite (bind_ok _ _ _ _ _ Hinit), (bind_ok _ _ _ _ _ Hdl).
    destruct files as [|f files].
    + eexists. split; [reflexivity|]. simpl. by etransitivity.
    + rewrite (bind_ok _ _ _ _ _ Hmerge).
      eexists. split; [reflexivity|]. simpl.
      etransitivity; [exact E0|]. by etransitivity.
Qed.

Lemma merge_absent_stops_pipeline_witness :
  ∃ w', main Scenario.apply_fails Scenario.test_globals Scenario.merged_world
        = (Ok tt, w')
        ∧ extends (fun c => is_upload_call c = false)
            (history Scenario.merged_world) (history w').
Proof.
  eapply (proj2 (merge_absent_stops_pipeline Scenario.apply_fails
                   Scenario.test_globals Scenario.merged_world)).
  - reflexivity.
  - vm_compute. reflexivity.
  - vm_compute. reflexivity.
  - vm_compute. reflexivity.
Defined.

(** ** Uploading *)

Section Upload.

Variable ext : externals.
Variables file_path bucket endpoint key_id key_secret : string.

Local Abbreviation client := (Boto3Client endpoint key_id key_secret).
Local Abbreviation put := (UploadFileobj bucket (PyStr.basename file_path)).

(** The [try] block of [upload_to_r2], by cases on what fails. *)
Lemma upload_to_r2_try_run w :
  upload_to_r2_try ext file_path bucket endpoint key_id key_secret w =
  let w1 := add_call client (add_log INFO "Initiating upload to Cloudflare R2" w) in
  match fault ext (history w) client with
  | Some e => (Raise (Error e), w1)
  | None =>
      let w2 := add_call (OpenRead file_path) w1 in
      match fault ext (history w ++ [client]) (OpenRead file_path) with
      | Some e => (Raise (Error e), w2)
      | None =>
          match fs w !! file_path with
          | None => (Raise (Error (mk_error FileNotFoundError file_path)), w2)
          | Some n =>
              if is_dir n
              then (Raise (Error (mk_error IsADirectoryError file_path)), w2)
              else
                let w3 := add_call put w2 in
                match fault ext (history w ++ [client; OpenRead file_path]) put with
                | Some e => (Raise (Error e), w3)
                | None =>
                    (Ok true,
                     add_log INFO ("Successfully uploaded " +:+ file_path +:+ " to R2")
                       (set_objects
                          (insert (bucket, PyStr.basename file_path) (data n))
                          w3))
                end
          end
      end
  end.
Proof.
  unfold upload_to_r2_try, open_read.
  rewrite bind_logger_info, bind_invoke. simpl.
  destruct (fault ext (history w) client) as [e|]; [done|].
  rewrite bind_assoc, bind_invoke. simpl.
  destruct (fault ext (history w ++ [client]) (OpenRead file_path)) as [e|];
    [done|].
  rewrite bind_assoc, bind_lookup_node. simpl.
  destruct (fs w !! file_path) as [n|]; [|done].
  destruct (is_dir n); [done|].
  unfold bind at 1. simpl. rewrite bind_invoke. simpl.
  rewrite <- app_assoc. simpl.
  by destruct (fault ext (history w ++ [client; OpenRead file_path]) put).
Qed.

End Upload.

(** C7. [upload_to_r2] always returns a boolean and never raises. It
    returns true exactly when building the client, opening the file and
    the upload all go through; an error in any of the three is logged
    and turned into false. *)
Theorem upload_to_r2_never_raises ext file_path bucket endpoint key_id
    key_secret w :
  let client := Boto3Client endpoint key_id key_secret in
  let put := UploadFileobj bucket (PyStr.basename file_path) in
  ∃ b w',
    upload_to_r2 ext file_path bucket endpoint key_id key_secret w = (Ok b, w')
    ∧ (b = true ↔
       fault ext (history w) client = None
       ∧ fault ext (history w ++ [client]) (OpenRead file_path) = None
       ∧ is_regular_file w file_path = true
       ∧ fault ext (history w ++ [client; OpenRead file_path]) put = None)
    ∧ (b = false →
       ∃ l text, log w' = l ++ [(ERROR, "Failed to upload to R2: " +:+ text)]).
Proof.
  intros client put. unfold upload_to_r2, is_regular_file.
  rewrite try_except_Exception, upload_to_r2_try_run. cbv zeta.
  fold client. fold put.
  destruct (fault ext (history w) client) as [e|].
  { eexists false, _. split; [reflexivity|]. split; [split; [done | intros (?&?&?&?); simplify_eq/=]|].
    intros _. simpl. by eauto. }
  destruct (fault ext (history w ++ [client]) (OpenRead file_path)) as [e|].
  { eexists false, _. split; [reflexivity|]. split; [split; [done | intros (?&?&?&?); simplify_eq/=]|].
    intros _. simpl. by eauto. }
  destruct (fs w !! file_path) as [n|].
  2:{ eexists false, _. split; [reflexivity|]. split; [split; [done | intros (?&?&?&?); simplify_eq/=]|].
      intros _. simpl. by eauto. }
  destruct (is_dir n).
  { eexists false, _. split; [reflexivity|]. split; [split; [done | intros (?&?&?&?); simplify_eq/=]|].
    intros _. simpl. by eauto. }
  destruct (fault ext (history w ++ [client; OpenRead file_path]) put) as [e|].
  { eexists false, _. split; [reflexivity|]. split; [split; [done | intros (?&?&?&?); simplify_eq/=]|].
    intros _. simpl. by eauto. }
  eexists true, _. split; [reflexivity|]. split; [done|]. discriminate.
Qed.

(** C8. When the upload goes through, the object is put into the given
    bucket under the base name of the local path: the name holds no
    slash, and for a path [dir/name] it is [name], whatever [dir] is.
    No other object is touched. *)
Theorem upload_to_r2_key ext file_path bucket endpoint key_id key_secret w n :
  let client := Boto3Client endpoint key_id key_secret in
  let put := UploadFileobj bucket (PyStr.basename file_path) in
  fs w !! file_path = Some n →
  is_dir n = false →
  fault ext (history w) client = None →
  fault ext (history w ++ [client]) (OpenRead file_path) = None →
  fault ext (history w ++ [client; OpenRead file_path]) put = None →
  ∃ w',
    upload_to_r2 ext file_path bucket endpoint key_id key_secret w = (Ok true, w')
    ∧ objects w' = <[(bucket, PyStr.basename file_path) := data n]> (objects w)
    ∧ history w' = history w ++ [client; OpenRead file_path; put]
    ∧ PyStr.contains "/" (PyStr.basename file_path) = false
    ∧ (∀ dir name,
         file_path = dir +:+ String "/" name →
         PyStr.contains "/" name = false →
         PyStr.basename file_path = name).
Proof.
  intros client put Hn Hd H1 H2 H3. unfold upload_to_r2.
  rewrite try_except_Exception, upload_to_r2_try_run. cbv zeta.
  fold client. fold put. rewrite H1, H2, H3, Hn, Hd.
  eexists. split; [reflexivity|]. simpl.
  split; [done|]. split; [by rewrite <- !app_assoc|].
  split; [apply basename_no_slash|].
  intros dir name -> Hname. by apply basename_join.
Qed.

Lemma upload_to_r2_key_witness :
  ∃ w',
    upload_to_r2 Scenario.all_fine ".//openstreetmap/all.osm.pbf" "bucket"
      "https://r2.example" "id" "secret" Scenario.merged_world = (Ok true, w')
    ∧ objects w' = <[("bucket", PyStr.basename ".//openstreetmap/all.osm.pbf") := "OLD"]> ∅
    ∧ history w' = [Boto3Client "https://r2.example" "id" "secret";
                    OpenRead ".//openstreetmap/all.osm.pbf";
                    UploadFileobj "bucket"
                      (PyStr.basename ".//openstreetmap/all.osm.pbf")]
    ∧ PyStr.contains "/" (PyStr.basename ".//openstreetmap/all.osm.pbf") = false
    ∧ (∀ dir name,
         ".//openstreetmap/all.osm.pbf" = dir +:+ String "/" name →
         PyStr.contains "/" name = false →
         PyStr.basename ".//openstreetmap/all.osm.pbf" = name).
Proof.
  apply (upload_to_r2_key Scenario.all_fine ".//openstreetmap/all.osm.pbf"
           "bucket" "https://r2.example" "id" "secret" Scenario.merged_world
           (mk_node false (Scenario.day 92) "OLD"));
    reflexivity.
Defined.

(** ** Downloading *)

Lemma bind_ok_inv {A C} (m : M A) (k : A → M C) w c w' :
  bind m k w = (Ok c, w') → ∃ a w1, m w = (Ok a, w1) ∧ k a w1 = (Ok c, w').
Proof.
  unfold bind. destruct (m w) as [[a|r] w1]; [by eauto | discriminate].
Qed.

Section Download.

Variable ext : externals.
Variable g : globals.

Local Abbreviation errors := (fun w : world => count_errors (log w)).

Lemma errors_write_chunks p cs broken :
  stable errors eq (write_chunks ext p cs broken).
Proof.
  induction cs as [|c cs IH]; simpl.
  - stable_auto.
  - apply stable_bind; [typeclasses eauto | stable_auto | intros _; exact IH].
Qed.

(** The [try] block logs no error of its own. *)
Lemma errors_download_try loc filename url :
  stable errors eq (download_try ext loc filename url).
Proof.
  unfold download_try.
  do 3 (apply stable_bind; [typeclasses eauto | solve [stable_auto] | intros ?]).
  apply stable_bind; [typeclasses eauto | apply errors_write_chunks | intros _].
  stable_auto.
Qed.

(** When the [try] block comes to its end, it gives the local file. *)
Lemma download_try_result loc filename url w o w' :
  download_try ext loc filename url w = (Ok o, w') → o = Some filename.
Proof.
  unfold download_try. intros H.
  repeat (apply bind_ok_inv in H as (? & ? & _ & H)).
  by injection H as <- _.
Qed.

(** One turn of the loop that comes to its end either appends the local
    file of the location and logs no error, or appends nothing and logs
    one. *)
Lemma download_one_spec self loc w o w' :
  download_one ext g self loc w = (Ok o, w') →
  ∃ filename,
    local_file g loc = Some filename
    ∧ match o with
      | Some f => f = filename ∧ errors w' = errors w
      | None => errors w' = S (errors w)
      end.
Proof.
  unfold download_one, local_file. cbv zeta.
  destruct (PyStr.split "/" loc !! 1%nat) as [country|] eqn:Ec.
  2:{ by rewrite (bind_raise _ _ _ _ _ (index_out_of_range _ _ w Ec)). }
  rewrite (bind_ok _ _ _ _ _ (index_in_range _ _ _ w Ec)).
  rewrite (bind_ok _ _ _ _ _ (needs_download_run ext _ w)).
  set (filename := DOWNLOAD_DIR g +:+ "/" +:+ country +:+ "-latest.osm.pbf").
  intros H. exists filename. split; [done|].
  match type of H with
  | context [if ?b then _ else _] => destruct b
  end.
  2:{ by injection H as <- <-. }
  rewrite bind_logger_info in H. unfold try_except in H.
  match type of H with
  | context [download_try ext ?l ?f ?u ?w1] =>
      destruct (download_try ext l f u w1) as [[o1|[e|c]] w2] eqn:Et
  end.
  all: pose proof (errors_download_try _ _ _ _ _ _ Et) as He;
    simpl in He; rewrite count_errors_snoc in He; simpl in He.
  - injection H as <- <-.
    pose proof (download_try_result _ _ _ _ _ _ Et) as ->.
    split; [done | lia].
  - simpl in H. destruct (issubclass (err_class e) RequestException);
      [|discriminate].
    rewrite bind_logger_error in H. injection H as <- <-.
    simpl. rewrite count_errors_snoc. simpl. lia.
  - discriminate.
Qed.

(** The loop keeps the order of the locations and drops the local file of
    each location it logged an error for. *)
Lemma download_loop_spec self locs acc w r w' :
  download_loop ext g self locs acc w = (Ok r, w') →
  ∃ names kept,
    Forall2 (fun loc name => local_file g loc = Some name) locs names
    ∧ r = acc ++ kept
    ∧ kept `sublist_of` names
    ∧ (length kept + errors w' = length locs + errors w)%nat.
Proof.
  revert acc w. induction locs as [|loc locs IH]; intros acc w; simpl.
  - intros [= <- <-]. exists [], []. rewrite app_nil_r.
    split; [constructor|]. split; [done|]. split; [constructor|]. done.
  - intros H. apply bind_ok_inv in H as (o & w1 & Hone & H).
    destruct (download_one_spec _ _ _ _ _ Hone) as (filename & Hf & Ho).
    destruct o as [f|].
    + destruct Ho as [-> He].
      destruct (IH _ _ H) as (names & kept & HF & -> & Hs & Hl).
      exists (filename :: names), (filename :: kept).
      split; [by constructor|]. split; [by rewrite <- app_assoc|].
      split; [by constructor|]. simpl. lia.
    + destruct (IH _ _ H) as (names & kept & HF & -> & Hs & Hl).
      exists (filename :: names), kept.
      split; [by constructor|]. split; [done|].
      split; [by constructor|]. simpl. lia.
Qed.

(** A location whose request fails with a request error is passed over:
    the loop goes on as if it had not been configured. *)
Lemma download_one_failed self loc filename e w :
  local_file g loc = Some filename →
  (∀ n, fs w !! filename = Some n →
        week_us <= to_microseconds (now ext (history w))
                   - to_microseconds (mtime n)) →
  request_error ext (history w) (remote_url self loc) = Some e →
  issubclass (err_class e) RequestException = true →
  download_one ext g self loc w =
  (Ok None,
   add_log ERROR ("Failed to download " +:+ loc +:+ " OSM data: " +:+ err_text e)
     (add_call (Get (remote_url self loc))
        (add_log INFO ("Downloading OSM file for " +:+ loc) w))).
Proof.
  unfold download_one, local_file, request_error, remote_url. cbv zeta.
  destruct (PyStr.split "/" loc !! 1%nat) as [country|] eqn:Ec; [|done].
  intros [= <-] Hold Hreq Hcls.
  rewrite (bind_ok _ _ _ _ _ (index_in_range _ _ _ w Ec)).
  rewrite (bind_ok _ _ _ _ _ (needs_download_old ext _ w Hold)).
  rewrite bind_logger_info. unfold try_except, download_try, requests_get.
  rewrite bind_assoc, bind_get_history, bind_assoc, bind_invoke. simpl.
  destruct (fault ext (history w) (Get _)) as [e'|].
  - injection Hreq as ->. simpl. by rewrite Hcls.
  - unfold bind at 1. simpl. unfold raise_for_status.
    match type of Hreq with
    | context [if ?b then _ else _] => destruct b; [|discriminate]
    end.
    injection Hreq as <-. done.
Qed.

End Download.

Lemma download_one_base_url ext g self self' loc :
  base_url self = base_url self' →
  download_one ext g self loc = download_one ext g self' loc.
Proof. unfold download_one. by intros ->. Qed.

Lemma bind_ext {A C} (m : M A) (k k' : A → M C) w :
  (∀ a w1, k a w1 = k' a w1) → bind m k w = bind m k' w.
Proof. intros H. unfold bind. destruct (m w) as [[a|r] w1]; [apply H | done]. Qed.

Lemma download_loop_base_url ext g self self' locs acc w :
  base_url self = base_url self' →
  download_loop ext g self locs acc w = download_loop ext g self' locs acc w.
Proof.
  intros H. revert acc w.
  induction locs as [|loc locs IH]; intros acc w; simpl; [done|].
  rewrite (download_one_base_url _ _ _ _ _ H).
  apply bind_ext. intros [f|] w1; apply IH.
Qed.

(** C1, as the specification has it, fails. Two locations are configured;
    a copy of the first one's file, eight days old, is there; the server
    answers 404 for the first and 200 for the second. The list returned
    has one path, not two, and the path of the first location, whose file
    was there before the failed attempt, is not in it. *)
Lemma download_files_full_list_counterexample :
  ∃ r w',
    download_files Scenario.togo_missing Scenario.test_globals
      Scenario.two_places Scenario.stale_world = (Ok r, w')
    ∧ length (locations Scenario.two_places) = 2%nat
    ∧ length r ≠ 2%nat
    ∧ is_Some (fs Scenario.stale_world !! Scenario.togo_file)
    ∧ local_file Scenario.test_globals "africa/togo" = Some Scenario.togo_file
    ∧ Scenario.togo_file ∉ r.
Proof.
  eexists _, _. split; [vm_compute; reflexivity|].
  split; [reflexivity|]. split; [simpl; lia|].
  split; [vm_compute; eauto|]. split; [reflexivity|].
  intros H. apply list_elem_of_In in H. simpl in H.
  destruct H as [H|[]]. discriminate.
Qed.

(** ** The configuration file *)

Section Dict.

Lemma dict_get_setdefault d key value k :
  dict_get (dict_setdefault d key value) k =
  match dict_get d k with
  | Some v => Some v
  | None => if String.eqb key k then Some value else None
  end.
Proof.
  induction d as [|[k0 v0] d IH]; simpl.
  - done.
  - destruct (String.eqb k0 key) eqn:E0; simpl.
    + apply String.eqb_eq in E0 as ->.
      destruct (String.eqb key k) eqn:E1; [done|].
      by destruct (dict_get d k).
    + destruct (String.eqb k0 k) eqn:E1; [done|]. exact IH.
Qed.

Lemma dict_get_None d k : dict_get d k = None ↔ k ∉ d.*1.
Proof.
  induction d as [|[k0 v0] d IH]; simpl.
  - split; [intros _; apply not_elem_of_nil | done].
  - rewrite not_elem_of_cons. destruct (String.eqb k0 k) eqn:E.
    + apply String.eqb_eq in E as ->. split; [discriminate | by intros []].
    + apply String.eqb_neq in E. rewrite IH.
      split; [intros H; split; [congruence | done] | by intros [_ H]].
Qed.

(** [setdefault] keeps the keys of a dictionary distinct. *)
Lemma dict_setdefault_NoDup d key value :
  NoDup d.*1 → NoDup (dict_setdefault d key value).*1.
Proof.
  induction d as [|[k0 v0] d IH]; simpl.
  - intros _. apply NoDup_singleton.
  - intros [Hk Hd]%NoDup_cons. destruct (String.eqb k0 key) eqn:E; simpl.
    + by apply NoDup_cons.
    + apply NoDup_cons. split; [|by apply IH].
      apply dict_get_None. rewrite dict_get_setdefault.
      apply dict_get_None in Hk. rewrite Hk.
      destruct (String.eqb key k0) eqn:E'; [|done].
      apply String.eqb_eq in E' as ->. by rewrite String.eqb_refl in E.
Qed.

(** [os.environ.update(d)], key by key. *)
Lemma update_lookup d (env : gmap string string) k :
  NoDup d.*1 →
  fold_left (fun env kv => <[kv.1 := kv.2]> env) d env !! k =
  match dict_get d k with
  | Some v => Some v
  | None => env !! k
  end.
Proof.
  revert env. induction d as [|[k0 v0] d IH]; intros env; simpl; [done|].
  intros [Hk Hd]%NoDup_cons. rewrite (IH _ Hd).
  destruct (String.eqb k0 k) eqn:E.
  - apply String.eqb_eq in E as ->.
    apply dict_get_None in Hk. rewrite Hk. apply lookup_insert_eq.
  - apply String.eqb_neq in E.
    destruct (dict_get d k); [done|]. by apply lookup_insert_ne.
Qed.

End Dict.

Section ReadVars.

Import PyStr.

(** The test of the loop, on a line that assigns. *)
Lemma assigns_passes line key value :
  assigns line key value →
  (String.eqb (strip line) "" || startswith "#" (strip line)
   || negb (contains "=" (strip line))) = false
  ∧ split1 "=" (strip line) = [key; value].
Proof.
  intros (Hs & Hk & Hc). rewrite Hs. split.
  - rewrite contains_join. destruct key as [|a key]; [done|].
    simpl in *. by rewrite Hc.
  - by apply split1_at_first.
Qed.

Lemma split1_inv sep s k v :
  split1 sep s = [k; v] → s = k +:+ String sep v ∧ contains sep k = false.
Proof.
  revert k. induction s as [|a s IH]; intros k; simpl; [discriminate|].
  destruct (Ascii.eqb a sep) eqn:E.
  - apply Ascii.eqb_eq in E as ->. by intros [= <- <-].
  - destruct (split1 sep s) as [|p [|q [|]]] eqn:Es; try discriminate.
    intros [= <- <-]. destruct (IH p eq_refl) as [-> Hp].
    simpl. by rewrite E.
Qed.

(** A line that passes the test and is cut in two assigns. *)
Lemma passes_assigns line key value :
  (String.eqb (strip line) "" || startswith "#" (strip line)
   || negb (contains "=" (strip line))) = false →
  split1 "=" (strip line) = [key; value] →
  assigns line key value.
Proof.
  intros Ht Hs. apply split1_inv in Hs as [Hl Hk].
  split; [done|]. split; [done|].
  rewrite Hl in Ht. apply orb_false_elim in Ht as [Ht _].
  apply orb_false_elim in Ht as [_ Ht].
  by destruct key.
Qed.

(** The loop never fails to unpack. *)
Lemma read_vars_total lines vars : ∃ vars', read_vars lines vars = Ok vars'.
Proof.
  revert vars. induction lines as [|line lines IH]; intros vars; simpl.
  - by eauto.
  - destruct (String.eqb (strip line) "" || startswith "#" (strip line)
              || negb (contains "=" (strip line))) eqn:Et; [apply IH|].
    apply orb_false_elim in Et as [_ Hc]. apply negb_false_iff in Hc.
    destruct (split1_two _ _ Hc) as (k & v & ->). apply IH.
Qed.

Lemma read_vars_NoDup lines vars vars' :
  read_vars lines vars = Ok vars' → NoDup vars.*1 → NoDup vars'.*1.
Proof.
  revert vars. induction lines as [|line lines IH]; intros vars; simpl.
  - by intros [= <-].
  - destruct (String.eqb (strip line) "" || startswith "#" (strip line)
              || negb (contains "=" (strip line))); [apply IH|].
    destruct (split1 "=" (strip line)) as [|k [|v [|]]]; try discriminate.
    intros H Hd. apply (IH _ H). by apply dict_setdefault_NoDup.
Qed.

(** A key that has a value keeps it. *)
Lemma read_vars_keeps lines vars vars' key value :
  read_vars lines vars = Ok vars' →
  dict_get vars key = Some value → dict_get vars' key = Some value.
Proof.
  revert vars. induction lines as [|line lines IH]; intros vars; simpl.
  - by intros [= <-].
  - destruct (String.eqb (strip line) "" || startswith "#" (strip line)
              || negb (contains "=" (strip line))); [apply IH|].
    destruct (split1 "=" (strip line)) as [|k [|v [|]]]; try discriminate.
    intros H Hg. apply (IH _ H). rewrite dict_get_setdefault. by rewrite Hg.
Qed.

(** The first line that assigns to a key gives it its value. *)
Lemma read_vars_first before line after vars vars' key value :
  read_vars (before ++ line :: after) vars = Ok vars' →
  dict_get vars key = None →
  (∀ l v, l ∈ before → ¬ assigns l key v) →
  assigns line key value →
  dict_get vars' key = Some value.
Proof.
  revert vars. induction before as [|l before IH]; intros vars; simpl.
  - intros H Hg _ Ha. destruct (assigns_passes _ _ _ Ha) as [Ht Hs].
    rewrite Ht, Hs in H.
    apply (read_vars_keeps _ _ _ _ _ H).
    rewrite dict_get_setdefault, Hg. by rewrite String.eqb_refl.
  - intros H Hg Hb Ha.
    destruct (String.eqb (strip l) "" || startswith "#" (strip l)
              || negb (contains "=" (strip l))) eqn:Et.
    { apply (IH _ H Hg); [|done]. intros l' v Hl. apply Hb. by right. }
    destruct (split1 "=" (strip l)) as [|k [|v [|]]] eqn:Es; try discriminate.
    apply (IH _ H); [| |done].
    + rewrite dict_get_setdefault, Hg.
      destruct (String.eqb k key) eqn:E; [|done].
      apply String.eqb_eq in E as ->.
      destruct (Hb l v); [by left|]. by apply passes_assigns.
    + intros l' v' Hl. apply Hb. by right.
Qed.

End ReadVars.

Section Environ.

(** Setting the items one after the other, when all are taken. *)
Lemma environ_update_ok d w :
  accepted d →
  environ_update d w
  = (Ok tt,
     mk_world (fs w)
       (fold_left (fun env kv => <[kv.1 := kv.2]> env) d (environ w))
       (objects w) (log w) (history w)).
Proof.
  revert w. induction d as [|[key value] d IH]; intros w Hd; simpl.
  - by destruct w.
  - apply Forall_cons in Hd as [Hkv Hd]. simpl in Hkv.
    unfold environ_setitem. rewrite Hkv, bind_modify. by rewrite (IH _ Hd).
Qed.

(** An update that returns has met no item that is refused. *)
Lemma environ_update_returns d w w' :
  environ_update d w = (Ok tt, w') → accepted d.
Proof.
  revert w. induction d as [|[key value] d IH]; intros w; simpl.
  - intros _. constructor.
  - unfold environ_setitem.
    destruct (putenv_error key value) as [e|] eqn:E; [discriminate|].
    rewrite bind_modify. intros H. constructor; [done | by eapply IH].
Qed.

(** However the update ends, it touches the environment only, and a
    variable either is as before or has the value of the dictionary. *)
Lemma environ_update_any d w :
  NoDup d.*1 →
  ∃ r env',
    environ_update d w
    = (r, mk_world (fs w) env' (objects w) (log w) (history w))
    ∧ ∀ k, env' !! k = environ w !! k
           ∨ (is_Some (dict_get d k) ∧ env' !! k = dict_get d k).
Proof.
  revert w. induction d as [|[key value] d IH]; intros w Hd; simpl.
  - exists (Ok tt), (environ w). split; [by destruct w | by left].
  - apply NoDup_cons in Hd as [Hk Hd]. unfold environ_setitem.
    destruct (putenv_error key value) as [e|].
    { exists (Raise (Error e)), (environ w). split; [by destruct w | by left]. }
    rewrite bind_modify.
    destruct (IH (set_environ (insert key value) w) Hd) as (r & env' & -> & He).
    exists r, env'. split; [done|]. intros k.
    destruct (String.eqb key k) eqn:E.
    + apply String.eqb_eq in E as <-. right. split; [by eauto|].
      destruct (He key) as [Hl|[[v Hv] _]].
      * rewrite Hl. simpl. by rewrite lookup_insert_eq.
      * apply dict_get_None in Hk. simpl in Hk. congruence.
    + apply String.eqb_neq in E. destruct (He k) as [Hl|Hr]; [|by right].
      left. rewrite Hl. simpl. by rewrite lookup_insert_ne.
Qed.

(** The same for the loop of setdefault mode: a variable changes only
    if it was not set, and then to the value of the dictionary. *)
Lemma environ_setdefault_all_any d w :
  ∃ r env',
    environ_setdefault_all d w
    = (r, mk_world (fs w) env' (objects w) (log w) (history w))
    ∧ ∀ k, env' !! k = environ w !! k
           ∨ (environ w !! k = None ∧ is_Some (dict_get d k)
              ∧ env' !! k = dict_get d k).
Proof.
  revert w. induction d as [|[key value] d IH]; intros w; simpl.
  - exists (Ok tt), (environ w). split; [by destruct w | by left].
  - unfold bind at 1. unfold environ_setdefault.
    destruct (environ w !! key) as [old|] eqn:Eold.
    + destruct (IH w) as (r & env' & -> & He).
      exists r, env'. split; [done|]. intros k.
      destruct (He k) as [Hl|(Hn & Hs & Hv)]; [by left|].
      right. destruct (String.eqb key k) eqn:E.
      * apply String.eqb_eq in E as <-. congruence.
      * done.
    + unfold environ_setitem.
      destruct (putenv_error key value) as [e|].
      { exists (Raise (Error e)), (environ w).
        split; [by destruct w | by left]. }
      simpl.
      destruct (IH (set_environ (insert key value) w))
        as (r & env' & -> & He).
      exists r, env'. split; [done|]. intros k. simpl in He.
      destruct (String.eqb key k) eqn:E.
      * apply String.eqb_eq in E as <-. right.
        split; [done|]. split; [by eauto|].
        destruct (He key) as [Hl|(Hn & _)].
        -- by rewrite Hl, lookup_insert_eq.
        -- by rewrite lookup_insert_eq in Hn.
      * apply String.eqb_neq in E.
        destruct (He k) as [Hl|(Hn & Hs & Hv)].
        -- left. by rewrite Hl, lookup_insert_ne.
        -- right. by rewrite lookup_insert_ne in Hn.
Qed.

(** The loop of setdefault mode, when all items are taken. *)
Lemma environ_setdefault_all_ok d w :
  accepted d →
  ∃ env',
    environ_setdefault_all d w
    = (Ok tt, mk_world (fs w) env' (objects w) (log w) (history w))
    ∧ ∀ k, env' !! k = applied false d (environ w) k.
Proof.
  revert w. induction d as [|[key value] d IH]; intros w Hd; simpl.
  - exists (environ w). split; [by destruct w|].
    intros k. unfold applied. simpl. by destruct (environ w !! k).
  - apply Forall_cons in Hd as [Hkv Hd]. simpl in Hkv.
    unfold bind at 1. unfold environ_setdefault, environ_setitem.
    rewrite Hkv. unfold applied. simpl.
    destruct (environ w !! key) as [old|] eqn:E.
    + destruct (IH w Hd) as (env' & -> & Hk).
      exists env'. split; [done|]. intros k. rewrite Hk. unfold applied.
      destruct (environ w !! k) eqn:Ek; [done|].
      destruct (String.eqb key k) eqn:E'; [|done].
      apply String.eqb_eq in E' as ->. congruence.
    + simpl. destruct (IH (set_environ (insert key value) w) Hd)
        as (env' & -> & Hk).
      exists env'. split; [done|]. intros k. rewrite Hk.
      unfold applied. simpl.
      destruct (String.eqb key k) eqn:E'.
      * apply String.eqb_eq in E' as ->. by rewrite lookup_insert_eq, E.
      * apply String.eqb_neq in E'. by rewrite lookup_insert_ne.
Qed.

(** In setdefault mode no variable of the environment is lost or
    changed, however the loop ends. *)
Lemma environ_setdefault_all_grows d :
  stable environ (⊆) (environ_setdefault_all d).
Proof.
  intros w r w' H.
  destruct (environ_setdefault_all_any d w) as (r' & env' & Hrun & He).
  rewrite Hrun in H. injection H as _ <-. simpl.
  apply map_subseteq_spec. intros k v Hk.
  destruct (He k) as [->|(Hn & _)]; [done | congruence].
Qed.

(** After the loop has returned, every key of the dictionary is set. *)
Lemma environ_setdefault_all_sets d w w' :
  environ_setdefault_all d w = (Ok tt, w') →
  ∀ k, is_Some (dict_get d k) → is_Some (environ w' !! k).
Proof.
  revert w. induction d as [|[key value] d IH]; intros w; simpl.
  - intros _ k [? ?]. discriminate.
  - intros H. apply bind_ok_inv in H as ([] & w1 & Hstep & H).
    intros k Hk. destruct (String.eqb key k) eqn:E; [|by eapply IH].
    apply String.eqb_eq in E as <-.
    assert (is_Some (environ w1 !! key)) as [v Hv].
    { unfold environ_setdefault, environ_setitem in Hstep.
      destruct (environ w !! key) as [old|] eqn:Eold.
      - injection Hstep as <-. by eauto.
      - destruct (putenv_error key value); [discriminate|].
        injection Hstep as <-. simpl. rewrite lookup_insert_eq. by eauto. }
    pose proof (environ_setdefault_all_grows d _ _ _ H) as Hsub.
    exists v. by apply (lookup_weaken _ _ _ _ Hv).
Qed.

(** When every key of the dictionary is set, the loop does nothing. *)
Lemma environ_setdefault_all_idle d w :
  (∀ k, is_Some (dict_get d k) → is_Some (environ w !! k)) →
  environ_setdefault_all d w = (Ok tt, w).
Proof.
  induction d as [|[key value] d IH]; simpl; [done|].
  intros Hd. unfold bind at 1. unfold environ_setdefault.
  destruct (Hd key) as [old ->].
  { rewrite String.eqb_refl. by eauto. }
  apply IH. intros k Hk. apply Hd.
  by destruct (String.eqb key k); eauto.
Qed.

(** Every entry read from the lines comes from a line that assigns it. *)
Lemma read_vars_entries lines vars vars' k v :
  read_vars lines vars = Ok vars' →
  (k, v) ∈ vars' →
  (k, v) ∈ vars ∨ ∃ l, l ∈ lines ∧ assigns l k v.
Proof.
  revert vars. induction lines as [|l lines IH]; intros vars; simpl.
  - intros [= <-]. by left.
  - destruct (String.eqb (PyStr.strip l) ""
              || PyStr.startswith "#" (PyStr.strip l)
              || negb (PyStr.contains "=" (PyStr.strip l))) eqn:Et.
    { intros H Hin. destruct (IH _ H Hin) as [?|(l' & ? & ?)]; [by left|].
      right. exists l'. split; [by right | done]. }
    destruct (PyStr.split1 "=" (PyStr.strip l)) as [|k0 [|v0 [|]]] eqn:Es;
      try discriminate.
    intros H Hin. destruct (IH _ H Hin) as [Hold|(l' & ? & ?)].
    + assert ((k, v) ∈ vars ∨ (k, v) = (k0, v0)) as [?|[= -> ->]];
        [|by left|].
      { clear -Hold. induction vars as [|[k1 v1] vars IHv]; simpl in Hold.
        - apply list_elem_of_singleton in Hold. by right.
        - destruct (String.eqb k1 k0); [by left|].
          apply elem_of_cons in Hold as [->|Hold]; [left; by left|].
          destruct (IHv Hold) as [?|?]; [left; by right | by right]. }
      right. exists l. split; [by left | by apply passes_assigns].
    + right. exists l'. split; [by right | done].
Qed.

Lemma lines_accepted_vars lines vars :
  read_vars lines [] = Ok vars → lines_accepted lines → accepted vars.
Proof.
  intros Hvars Hl. apply Forall_forall. intros [k v] Hin. simpl.
  destruct (read_vars_entries _ _ _ _ _ Hvars Hin) as [Hnil|(l & Hin' & Ha)].
  - by apply elem_of_nil in Hnil.
  - by apply (Hl l).
Qed.

End Environ.

Section LoadEnvFile.

Variable ext : externals.

Lemma bind_path_is_file {A} p (k : bool → M A) w :
  bind (path_is_file p) k w = k (is_regular_file w p) w.
Proof. reflexivity. Qed.

Lemma bind_read_text {A} p (k : string → M A) w :
  is_regular_file w p = true →
  fault ext (history w) (OpenRead p) = None →
  bind (read_text ext p) k w = k (text_of w p) (add_call (OpenRead p) w).
Proof.
  unfold is_regular_file, text_of, read_text, open_read. intros Hf Hr.
  rewrite !bind_assoc, bind_invoke, Hr, bind_assoc, bind_lookup_node. simpl.
  destruct (fs w !! p) as [n|]; [|discriminate].
  by destruct (is_dir n).
Qed.

(** The load, when a configuration file is there and can be read, comes
    down to applying the dictionary read from it. *)
Lemma load_env_file_reduce input override w path :
  path = (if is_regular_file w input then input else ".env") →
  is_regular_file w path = true →
  fault ext (history w) (OpenRead path) = None →
  ∃ vars,
    read_vars (PyStr.splitlines (text_of w path)) [] = Ok vars
    ∧ NoDup vars.*1
    ∧ load_env_file ext input override w
      = (if override then environ_update vars
         else environ_setdefault_all vars) (add_call (OpenRead path) w).
Proof.
  intros Hpath Hfile Hread.
  destruct (read_vars_total (PyStr.splitlines (text_of w path)) [])
    as [vars Hvars].
  assert (NoDup vars.*1) as Hnd.
  { apply (read_vars_NoDup _ _ _ Hvars). constructor. }
  assert (∀ A (k : string → M A),
            bind (if is_regular_file w input then ret input
                  else fallback <- path_is_file ".env";;
                       if fallback then ret ".env"
                       else logger_critical "Unable to load env vars";;
                            sys_exit None) k w = k path w) as Hsel.
  { intros A k. destruct (is_regular_file w input); subst path; [done|].
    rewrite bind_assoc, bind_path_is_file, Hfile. done. }
  exists vars. split; [done|]. split; [done|].
  unfold load_env_file. cbv zeta. rewrite bind_path_is_file, Hsel.
  rewrite (bind_read_text _ _ _ Hfile Hread).
  unfold lift at 1. unfold bind at 1. by rewrite Hvars.
Qed.

(** The load, when moreover every entry is one the environment takes. *)
Lemma load_env_file_run input override w path :
  path = (if is_regular_file w input then input else ".env") →
  is_regular_file w path = true →
  fault ext (history w) (OpenRead path) = None →
  lines_accepted (PyStr.splitlines (text_of w path)) →
  ∃ vars env',
    read_vars (PyStr.splitlines (text_of w path)) [] = Ok vars
    ∧ load_env_file ext input override w
      = (Ok tt, mk_world (fs w) env' (objects w) (log w)
                  (history w ++ [OpenRead path]))
    ∧ ∀ k, env' !! k = applied override vars (environ w) k.
Proof.
  intros Hpath Hfile Hread Hacc.
  destruct (load_env_file_reduce input override w path Hpath Hfile Hread)
    as (vars & Hvars & Hnd & ->).
  pose proof (lines_accepted_vars _ _ Hvars Hacc) as Hok.
  destruct override.
  - rewrite (environ_update_ok _ _ Hok).
    eexists vars, _. split; [done|]. split; [reflexivity|].
    intros k. simpl. by apply update_lookup.
  - destruct (environ_setdefault_all_ok vars (add_call (OpenRead path) w) Hok)
      as (env' & -> & Hk).
    by exists vars, env'.
Qed.

(** The load, however it ends: it touches the environment only, apart
    from the one call, and a variable is as before or has the value the
    file gives it. *)
Lemma load_env_file_any input override w path :
  path = (if is_regular_file w input then input else ".env") →
  is_regular_file w path = true →
  fault ext (history w) (OpenRead path) = None →
  ∃ vars r env',
    read_vars (PyStr.splitlines (text_of w path)) [] = Ok vars
    ∧ load_env_file ext input override w
      = (r, mk_world (fs w) env' (objects w) (log w)
              (history w ++ [OpenRead path]))
    ∧ ∀ k, env' !! k = environ w !! k
           ∨ (is_Some (dict_get vars k) ∧ env' !! k = dict_get vars k).
Proof.
  intros Hpath Hfile Hread.
  destruct (load_env_file_reduce input override w path Hpath Hfile Hread)
    as (vars & Hvars & Hnd & ->).
  exists vars. destruct override.
  - destruct (environ_update_any vars (add_call (OpenRead path) w) Hnd)
      as (r & env' & -> & He).
    by exists r, env'.
  - destruct (environ_setdefault_all_any vars (add_call (OpenRead path) w))
      as (r & env' & -> & He).
    exists r, env'. split; [done|]. split; [done|].
    intros k. destruct (He k) as [?|(_ & ? & ?)]; [by left | by right].
Qed.

(** The load, when no configuration file is there. *)
Lemma load_env_file_missing input override w :
  is_regular_file w input = false →
  is_regular_file w ".env" = false →
  load_env_file ext input override w
  = (Raise (SystemExit None), add_log CRITICAL "Unable to load env vars" w).
Proof.
  intros H1 H2. unfold load_env_file. cbv zeta.
  rewrite bind_path_is_file, H1.
  rewrite bind_assoc, bind_path_is_file, H2. done.
Qed.

(** The load, when the configuration file is there and cannot be
    opened. *)
Lemma load_env_file_denied input override w path e :
  path = (if is_regular_file w input then input else ".env") →
  is_regular_file w path = true →
  fault ext (history w) (OpenRead path) = Some e →
  load_env_file ext input override w
  = (Raise (Error e), add_call (OpenRead path) w).
Proof.
  intros Hpath Hfile Hread.
  unfold load_env_file. cbv zeta. rewrite bind_path_is_file.
  assert (∀ A (k : string → M A),
            bind (if is_regular_file w input then ret input
                  else fallback <- path_is_file ".env";;
                       if fallback then ret ".env"
                       else logger_critical "Unable to load env vars";;
                            sys_exit None) k w = k path w) as Hsel.
  { intros A k. destruct (is_regular_file w input); subst path; [done|].
    rewrite bind_assoc, bind_path_is_file, Hfile. done. }
  rewrite Hsel. unfold read_text, open_read.
  by rewrite !bind_assoc, bind_invoke, Hread.
Qed.



End LoadEnvFile.

(** ** Fatal configuration errors *)

Lemma eval_setting_world ext s w b w' :
  eval_setting ext s w = (Ok b, w') → w' = w.
Proof.
  unfold eval_setting.
  destruct (String.eqb s "True"); [by intros [= _ <-]|].
  destruct (String.eqb s "False"); [by intros [= _ <-]|].
  destruct (py_eval ext s); [discriminate | by intros [= _ <-]].
Qed.

(** The source address the module keeps is the [OSM_SOURCE] of the
    environment, read after the configuration file is loaded. *)
Lemma module_init_source ext w g w0 :
  module_init ext w = (Ok g, w0) →
  OSM_SOURCE g = environ w0 !! "OSM_SOURCE".
Proof.
  unfold module_init. intros H.
  apply bind_ok_inv in H as (? & w1 & _ & H).
  repeat match type of H with
  | bind (os_getenv_default _ _) _ _ = _ =>
      apply bind_ok_inv in H as (? & ? & [= <- <-] & H)
  | bind (os_getenv _) _ _ = _ =>
      apply bind_ok_inv in H as (? & ? & [= <- <-] & H)
  | bind (logger_info _) _ _ = _ =>
      apply bind_ok_inv in H as (? & ? & [= <- <-] & H)
  | bind (eval_setting _ _) _ _ = _ =>
      apply bind_ok_inv in H as (? & ? & ->%eval_setting_world & H)
  end.
  by injection H as <- <-.
Qed.

(** C10. The two fatal configuration errors the script itself detects
    end the process by [sys.exit()] with no argument, so with exit
    status 0, which is also the status of a run that completes: when
    neither [.osm.env] nor [.env] is a file, and when the source address
    is not set. A configuration file that is there but cannot be read is
    not among them: the error of [open] is not caught, and the process
    ends with status 1. *)
Theorem fatal_configuration_exits_zero ext w :
  (is_regular_file w ".osm.env" = false →
   is_regular_file w ".env" = false →
   script ext w
   = (Raise (SystemExit None), add_log CRITICAL "Unable to load env vars" w)
   ∧ exit_status (script ext w).1 = 0)
  ∧ (∀ g,
       OSM_SOURCE g = None →
       main ext g w
       = (Raise (SystemExit None), add_log CRITICAL "Incorrect download URL" w)
       ∧ exit_status (main ext g w).1 = 0)
  ∧ (∀ g w0,
       module_init ext w = (Ok g, w0) →
       environ w0 !! "OSM_SOURCE" = None →
       script ext w
       = (Raise (SystemExit None), add_log CRITICAL "Incorrect download URL" w0)
       ∧ exit_status (script ext w).1 = 0)
  ∧ (∀ w', script ext w = (Ok tt, w') → exit_status (script ext w).1 = 0)
  ∧ (∀ path e,
       path = (if is_regular_file w ".osm.env" then ".osm.env" else ".env") →
       is_regular_file w path = true →
       fault ext (history w) (OpenRead path) = Some e →
       script ext w = (Raise (Error e), add_call (OpenRead path) w)
       ∧ exit_status (script ext w).1 = 1).
Proof.
  split; [|split; [|split; [|split]]].
  - intros H1 H2.
    assert (script ext w
            = (Raise (SystemExit None),
               add_log CRITICAL "Unable to load env vars" w)) as Hs.
    { unfold script, module_init.
      rewrite !bind_assoc.
      by rewrite (bind_raise _ _ _ _ _
                    (load_env_file_missing ext ".osm.env" false w H1 H2)). }
    by rewrite Hs.
  - intros g Hg. unfold main. rewrite Hg. done.
  - intros g w0 Hinit Henv.
    assert (script ext w
            = (Raise (SystemExit None),
               add_log CRITICAL "Incorrect download URL" w0)) as Hs.
    { unfold script. rewrite (bind_ok _ _ _ _ _ Hinit).
      unfold main. by rewrite (module_init_source _ _ _ _ Hinit), Henv. }
    by rewrite Hs.
  - intros w' ->. done.
  - intros path e Hpath Hfile Hread.
    assert (script ext w = (Raise (Error e), add_call (OpenRead path) w)) as Hs.
    { unfold script, module_init. rewrite !bind_assoc.
      by rewrite (bind_raise _ _ _ _ _
                    (load_env_file_denied ext ".osm.env" false w path e
                       Hpath Hfile Hread)). }
    by rewrite Hs.
Qed.

Lemma fatal_configuration_exits_zero_witness :
  (script Scenario.all_fine Scenario.empty_world
   = (Raise (SystemExit None),
      add_log CRITICAL "Unable to load env vars" Scenario.empty_world)
   ∧ exit_status (script Scenario.all_fine Scenario.empty_world).1 = 0)
  ∧ (main Scenario.all_fine Scenario.no_source Scenario.empty_world
     = (Raise (SystemExit None),
        add_log CRITICAL "Incorrect download URL" Scenario.empty_world)
     ∧ exit_status
         (main Scenario.all_fine Scenario.no_source Scenario.empty_world).1 = 0)
  ∧ (∃ w0,
       script Scenario.all_fine Scenario.env_world
       = (Raise (SystemExit None), add_log CRITICAL "Incorrect download URL" w0)
       ∧ exit_status (script Scenario.all_fine Scenario.env_world).1 = 0)
  ∧ exit_status (script Scenario.all_fine Scenario.ready_world).1 = 0
  ∧ (script Cases.read_denied Scenario.ready_world
     = (Raise (Error (mk_error PermissionError "denied")),
        add_call (OpenRead ".osm.env") Scenario.ready_world)
     ∧ exit_status (script Cases.read_denied Scenario.ready_world).1 = 1).
Proof.
  split; [|split; [|split; [|split]]].
  - apply (proj1 (fatal_configuration_exits_zero Scenario.all_fine
                    Scenario.empty_world)); reflexivity.
  - apply (proj1 (proj2 (fatal_configuration_exits_zero Scenario.all_fine
                           Scenario.empty_world)) Scenario.no_source).
    reflexivity.
  - eexists.
    eapply (proj1 (proj2 (proj2 (fatal_configuration_exits_zero
                                   Scenario.all_fine Scenario.env_world)))).
    + vm_compute. reflexivity.
    + vm_compute. reflexivity.
  - eapply (proj1 (proj2 (proj2 (proj2 (fatal_configuration_exits_zero
                                   Scenario.all_fine Scenario.ready_world))))).
    vm_compute. reflexivity.
  - apply (proj2 (proj2 (proj2 (proj2 (fatal_configuration_exits_zero
                                   Cases.read_denied Scenario.ready_world))))
             ".osm.env" (mk_error PermissionError "denied"));
      reflexivity.
Defined.

(** C10 as the specification words it does not hold of a configuration
    file that is there and cannot be read: no readable file is found, and
    the process ends with status 1, which is not the status of a run
    that completes. *)
Lemma unreadable_configuration_counterexample :
  is_regular_file Scenario.ready_world ".osm.env" = true
  ∧ fault Cases.read_denied (history Scenario.ready_world)
      (OpenRead ".osm.env")
    = Some (mk_error PermissionError "denied")
  ∧ (script Cases.read_denied Scenario.ready_world).1
    = Raise (Error (mk_error PermissionError "denied"))
  ∧ exit_status (script Cases.read_denied Scenario.ready_world).1 = 1
  ∧ exit_status (script Scenario.all_fine Scenario.ready_world).1 = 0.
Proof. repeat split; vm_compute; reflexivity. Qed.

(** * Further properties *)

(** ** What [main] calls and what it leaves alone *)

(** Binding, where what follows is only looked at for the values the
    first part can return. *)
Lemma stable_bind_val {A B C} (f : world → B) (R : relation B)
    `{!PreOrder R} (m : M A) (k : A → M C) :
  stable f R m →
  (∀ a, (∃ w w', m w = (Ok a, w')) → stable f R (k a)) →
  stable f R (bind m k).
Proof.
  intros Hm Hk w r w'. unfold bind.
  destruct (m w) as [[a|r0] w1] eqn:E.
  - intros H. etransitivity; [exact (Hm _ _ _ E)|].
    by apply (Hk a (ex_intro _ w (ex_intro _ w1 E)) _ _ _ H).
  - intros [= <- <-]. exact (Hm _ _ _ E).
Qed.

(** The environment and the stored objects, which nothing before the
    upload touches. *)
Section Frame.

Variable ext : externals.
Variable g : globals.

Local Abbreviation kept := (fun w : world => (environ w, objects w)).

Lemma kept_write_chunks p cs broken :
  stable kept eq (write_chunks ext p cs broken).
Proof.
  induction cs as [|c cs IH]; simpl.
  - stable_auto.
  - apply stable_bind; [typeclasses eauto | stable_auto | intros _; exact IH].
Qed.

Lemma kept_download_try loc filename url :
  stable kept eq (download_try ext loc filename url).
Proof.
  unfold download_try.
  do 3 (apply stable_bind; [typeclasses eauto | solve [stable_auto] | intros ?]).
  apply stable_bind; [typeclasses eauto | apply kept_write_chunks | intros _].
  stable_auto.
Qed.

Lemma kept_download_one self loc :
  stable kept eq (download_one ext g self loc).
Proof.
  unfold download_one. cbv zeta.
  apply stable_bind; [typeclasses eauto | stable_auto | intros country].
  apply stable_bind; [typeclasses eauto | stable_auto | intros needed].
  destruct needed; [|stable_auto].
  stable_step; [stable_auto|].
  stable_step; try solve [stable_auto].
  apply kept_download_try.
Qed.

Lemma kept_download_files self :
  stable kept eq (download_files ext g self).
Proof.
  unfold download_files. generalize (@nil string) as acc.
  induction (locations self) as [|loc locs IH]; intros acc; simpl.
  - stable_auto.
  - apply stable_bind;
      [typeclasses eauto | apply kept_download_one | intros [f|]; apply IH].
Qed.

Lemma kept_add_files inputs reader :
  stable kept eq (add_files ext inputs reader).
Proof.
  revert reader. induction inputs as [|f inputs IH]; intros reader; simpl.
  - stable_auto.
  - do 3 (apply stable_bind; [typeclasses eauto | solve [stable_auto] | intros ?]).
    apply IH.
Qed.

Lemma kept_merge_files inputs out :
  stable kept eq (merge_files ext inputs out).
Proof.
  unfold merge_files.
  stable_step; try solve [stable_auto].
  unfold merge_files_try.
  do 6 (apply stable_bind; [typeclasses eauto | solve [stable_auto] | intros ?]).
  apply stable_bind; [typeclasses eauto | apply kept_add_files | intros ?].
  stable_auto.
Qed.

Lemma kept_init source locs : stable kept eq (init ext g source locs).
Proof. stable_auto. Qed.

End Frame.

Section Main.

Variable ext : externals.
Variable g : globals.

Local Abbreviation merged_path :=
  (OSM_DIR g +:+ "/" +:+ output_name +:+ ".osm.pbf").

(** What [merge_files] returns, when it returns a path, is the output
    path it was given. *)
Lemma merge_files_value inputs out w f w' :
  merge_files ext inputs out w = (Ok (Some f), w') → f = out.
Proof.
  intros H.
  destruct (merge_files_run ext inputs out w)
    as (r & w1 & rest & h & c & Hrun & _ & _ & _ & Hr).
  rewrite H in Hrun. injection Hrun as <- _.
  destruct (fault ext h c); [discriminate | by injection Hr as ->].
Qed.

(** [main], from what holds of its parts. The upload only matters when
    it is switched on, and only for the merged file. *)
Lemma stable_main {B} (f : world → B) (R : relation B) `{!PreOrder R} :
  (∀ lv msg w, R (f w) (f (add_log lv msg w))) →
  (∀ source locs, stable f R (init ext g source locs)) →
  (∀ self, stable f R (download_files ext g self)) →
  (∀ inputs out, stable f R (merge_files ext inputs out)) →
  (S3_ENABLED g = true →
   stable f R (upload_to_r2 ext merged_path
                 (bucket_name (S3_CONFIG g)) (endpoint_url (S3_CONFIG g))
                 (access_key_id (S3_CONFIG g))
                 (access_key_secret (S3_CONFIG g)))) →
  stable f R (main ext g).
Proof.
  intros Hlog Hinit Hdl Hmerge Hup. unfold main.
  destruct (OSM_SOURCE g) as [source|].
  2:{ apply stable_bind; [typeclasses eauto | by apply stable_log |].
      intros _. apply stable_raise. typeclasses eauto. }
  apply stable_bind; [typeclasses eauto | apply Hinit | intros handler].
  apply stable_bind; [typeclasses eauto | apply Hdl | intros files].
  destruct files as [|file files]; [by apply stable_log|].
  apply stable_bind_val; [typeclasses eauto | apply Hmerge |].
  intros [path|] (w1 & w2 & Hrun); [|by apply stable_log].
  apply merge_files_value in Hrun as ->.
  destruct (String.eqb merged_path ""); [by apply stable_log|].
  destruct (S3_ENABLED g); [|by apply stable_log].
  apply stable_bind; [typeclasses eauto | by apply Hup |].
  intros [|]; by apply stable_log.
Qed.

Lemma calls_upload_to_r2 (P : call → Prop) p bucket endpoint key_id secret :
  P (Boto3Client endpoint key_id secret) →
  P (OpenRead p) →
  P (UploadFileobj bucket (PyStr.basename p)) →
  stable history (extends P) (upload_to_r2 ext p bucket endpoint key_id secret).
Proof.
  intros H1 H2 H3. unfold upload_to_r2, upload_to_r2_try, open_read.
  stable_auto.
Qed.

Lemma basename_merged_path : PyStr.basename merged_path = "all.osm.pbf".
Proof. by apply (basename_join (OSM_DIR g) "all.osm.pbf"). Qed.

End Main.

(** X1. With the upload switched off, [main] makes no call of the
    upload, whatever else happens, and leaves the stored objects and the
    environment as they were. *)
Theorem main_upload_disabled ext g w :
  S3_ENABLED g = false →
  extends (fun c => is_upload_call c = false)
    (history w) (history (main ext g w).2)
  ∧ objects (main ext g w).2 = objects w
  ∧ environ (main ext g w).2 = environ w.
Proof.
  intros Hoff. destruct (main ext g w) as [r w'] eqn:E. simpl. split.
  - refine (stable_main ext g history _ _ _ _ _ _ _ _ _ E).
    + intros lv msg w0. reflexivity.
    + intros. by apply calls_init.
    + intros. by apply calls_download_files.
    + intros. by apply calls_merge_files.
    + rewrite Hoff. discriminate.
  - assert ((environ w, objects w) = (environ w', objects w')) as Hk.
    { refine (stable_main ext g (fun w => (environ w, objects w)) eq
                _ _ _ _ _ _ _ _ E).
      + done.
      + intros. apply kept_init.
      + intros. apply kept_download_files.
      + intros. apply kept_merge_files.
      + rewrite Hoff. discriminate. }
    by injection Hk as -> ->.
Qed.

Lemma main_upload_disabled_witness :
  extends (fun c => is_upload_call c = false)
    (history Scenario.merged_world)
    (history (main Scenario.all_fine Cases.upload_off Scenario.merged_world).2)
  ∧ objects (main Scenario.all_fine Cases.upload_off Scenario.merged_world).2
    = objects Scenario.merged_world
  ∧ environ (main Scenario.all_fine Cases.upload_off Scenario.merged_world).2
    = environ Scenario.merged_world.
Proof.
  apply (main_upload_disabled Scenario.all_fine Cases.upload_off
           Scenario.merged_world).
  reflexivity.
Defined.

(** X2. Whatever the data directory is, every object [main] puts goes
    into the configured bucket under the key [all.osm.pbf]. *)
Theorem main_upload_key ext g w :
  extends
    (fun c => ∀ bucket key,
       c = UploadFileobj bucket key →
       bucket = bucket_name (S3_CONFIG g) ∧ key = "all.osm.pbf")
    (history w) (history (main ext g w).2).
Proof.
  destruct (main ext g w) as [r w'] eqn:E. simpl.
  assert (∀ c, is_upload_call c = false →
               ∀ bucket key, c = UploadFileobj bucket key →
               bucket = bucket_name (S3_CONFIG g) ∧ key = "all.osm.pbf") as Hother.
  { intros c Hc bucket key ->. discriminate. }
  refine (stable_main ext g history _ _ _ _ _ _ _ _ _ E).
  - intros lv msg w0. reflexivity.
  - intros. by apply calls_init.
  - intros. by apply calls_download_files.
  - intros. by apply calls_merge_files.
  - intros _. apply calls_upload_to_r2.
    + intros bucket key. discriminate.
    + intros bucket key. discriminate.
    + intros bucket key [= <- <-]. by rewrite basename_merged_path.
Qed.

(** ** What the downloads call *)

Section Fetch.

Variable ext : externals.
Variable g : globals.

Variable P : call → Prop.
Hypothesis P_fetch : ∀ c, is_fetch_call c = true → P c.

Local Abbreviation fetching m := (stable history (extends P) m).

Lemma fetch_write_chunks p cs broken : fetching (write_chunks ext p cs broken).
Proof.
  induction cs as [|c cs IH]; simpl.
  - stable_auto.
  - apply stable_bind; [typeclasses eauto | stable_auto | intros _; exact IH].
Qed.

Lemma fetch_download_try loc filename url :
  fetching (download_try ext loc filename url).
Proof.
  unfold download_try.
  do 3 (apply stable_bind; [typeclasses eauto | solve [stable_auto] | intros ?]).
  apply stable_bind; [typeclasses eauto | apply fetch_write_chunks | intros _].
  stable_auto.
Qed.

Lemma fetch_download_one self loc : fetching (download_one ext g self loc).
Proof.
  unfold download_one. cbv zeta.
  apply stable_bind; [typeclasses eauto | stable_auto | intros country].
  apply stable_bind; [typeclasses eauto | stable_auto | intros needed].
  destruct needed; [|stable_auto].
  stable_step; [stable_auto|].
  stable_step; try solve [stable_auto].
  apply fetch_download_try.
Qed.

Lemma fetch_download_files self : fetching (download_files ext g self).
Proof.
  unfold download_files. generalize (@nil string) as acc.
  induction (locations self) as [|loc locs IH]; intros acc; simpl.
  - stable_auto.
  - apply stable_bind;
      [typeclasses eauto | apply fetch_download_one | intros [f|]; apply IH].
Qed.

Lemma fetch_init source locs : fetching (init ext g source locs).
Proof. stable_auto. Qed.

End Fetch.

(** X3. The constructor and [download_files] only make directories, ask
    the server and open local files for writing: they never delete a
    file, never call the merge library and never upload, however they
    end. *)
Theorem download_files_only_fetches ext g source locs self w :
  extends (fun c => is_fetch_call c = true)
    (history w) (history (init ext g source locs w).2)
  ∧ extends (fun c => is_fetch_call c = true)
      (history w) (history (download_files ext g self w).2).
Proof.
  split.
  - destruct (init ext g source locs w) as [r w'] eqn:E.
    exact (fetch_init ext g _ (fun c H => H) _ _ _ _ _ E).
  - destruct (download_files ext g self w) as [r w'] eqn:E.
    exact (fetch_download_files ext g _ (fun c H => H) _ _ _ _ E).
Qed.

(** X4. When no location yields a file, [main] logs it and returns:
    nothing is deleted, merged or uploaded. *)
Theorem main_nothing_downloaded ext g w source handler w0 w1 :
  OSM_SOURCE g = Some source →
  init ext g source (all_locations g) w = (Ok handler, w0) →
  download_files ext g handler w0 = (Ok [], w1) →
  main ext g w
  = (Ok tt, add_log ERROR "No files were downloaded or found locally" w1)
  ∧ extends (fun c => is_fetch_call c = true) (history w) (history w1).
Proof.
  intros Hsrc Hinit Hdl. split.
  - unfold main. rewrite Hsrc.
    by rewrite (bind_ok _ _ _ _ _ Hinit), (bind_ok _ _ _ _ _ Hdl).
  - etransitivity.
    + exact (fetch_init ext g _ (fun c H => H) _ _ _ _ _ Hinit).
    + exact (fetch_download_files ext g _ (fun c H => H) _ _ _ _ Hdl).
Qed.

Lemma main_nothing_downloaded_witness :
  ∃ w1,
    main Scenario.togo_missing Cases.togo_only Scenario.stale_world
    = (Ok tt, add_log ERROR "No files were downloaded or found locally" w1)
    ∧ extends (fun c => is_fetch_call c = true)
        (history Scenario.stale_world) (history w1).
Proof.
  eexists.
  eapply (main_nothing_downloaded Scenario.togo_missing Cases.togo_only
            Scenario.stale_world).
  - reflexivity.
  - vm_compute. reflexivity.
  - vm_compute. reflexivity.
Defined.

(** ** One download *)

Lemma bind_ret {A C} (a : A) (k : A → M C) w : bind (ret a) k w = k a w.
Proof. reflexivity. Qed.

(** A file less than a week old is not downloaded again. *)
Lemma needs_download_recent ext p w n :
  fs w !! p = Some n →
  to_microseconds (now ext (history w)) - to_microseconds (mtime n) < week_us →
  needs_download ext p w = (Ok false, w).
Proof.
  intros Hn Hage. rewrite needs_download_run, Hn, week_old.
  rewrite bool_decide_eq_false_2; [done | lia].
Qed.

Section OneDownload.

Variable ext : externals.
Variable g : globals.

(** The chunks are appended one after the other to what the file holds. *)
Lemma write_chunks_run p cs broken w d :
  fs w !! p = Some (mk_node false (now ext (history w)) d) →
  ∃ w',
    write_chunks ext p cs broken w
    = (match broken with
       | None => Ok tt
       | Some e => Raise (Error e)
       end, w')
    ∧ fs w' = <[p := mk_node false (now ext (history w))
                       (fold_left String.append cs d)]> (fs w)
    ∧ history w' = history w ∧ log w' = log w.
Proof.
  revert w d. induction cs as [|c cs IH]; intros w d Hp; simpl.
  - exists w. split; [by destruct broken|].
    split; [by rewrite insert_id | done].
  - unfold file_write. rewrite !bind_assoc, bind_lookup_node, bind_assoc.
    rewrite bind_datetime_now, bind_modify, Hp. simpl.
    match goal with
    | |- context [write_chunks ext p cs broken ?w1] =>
        destruct (IH w1 (d +:+ c)) as (w' & Hrun & Hfs & Hh & Hl)
    end.
    { simpl. by rewrite lookup_insert_eq. }
    exists w'. split; [exact Hrun|]. simpl in *.
    split; [by rewrite Hfs, insert_insert_eq | done].
Qed.

(** The [try] block when the request is answered and the local file can
    be opened: the file is emptied and then holds the chunks received,
    whether or not the stream breaks after them. *)
Lemma download_try_run loc filename url w :
  request_error ext (history w) url = None →
  fault ext (history w ++ [Get url]) (OpenWrite filename) = None →
  (∀ n, fs w !! filename = Some n → is_dir n = false) →
  let r := answer ext (history w) url in
  let t := now ext (history w ++ [Get url; OpenWrite filename]) in
  ∃ w',
    download_try ext loc filename url w
    = (match stream_error r with
       | None => Ok (Some filename)
       | Some e => Raise (Error e)
       end, w')
    ∧ fs w' = <[filename := mk_node false t (written (chunks r))]> (fs w)
    ∧ history w' = history w ++ [Get url; OpenWrite filename]
    ∧ log w' = log w ++ match stream_error r with
                        | None => [(INFO, "Successfully downloaded " +:+ loc
                                          +:+ " OSM data")]
                        | Some _ => []
                        end.
Proof.
  intros Hreq Hopen Hfile r t. unfold request_error in Hreq.
  destruct (fault ext (history w) (Get url)) as [e|] eqn:Hget;
    [discriminate Hreq|].
  cbv zeta in Hreq. fold r in Hreq.
  destruct (negb (String.eqb (http_error_msg r) "")) eqn:Hst;
    [discriminate Hreq|].
  unfold download_try, requests_get, raise_for_status, open_write.
  rewrite bind_assoc, bind_get_history, bind_assoc, bind_invoke, Hget.
  rewrite bind_ret. cbv zeta. fold r. rewrite Hst, bind_ret.
  rewrite !bind_assoc, bind_invoke. simpl history. rewrite Hopen.
  rewrite bind_assoc, bind_lookup_node. simpl fs.
  assert (∀ A (k : unit → M A) w0,
            bind match fs w !! filename with
                 | Some {| is_dir := true |} =>
                     raise_error IsADirectoryError filename
                 | _ =>
                     t0 <- datetime_now ext;;
                     modify (set_fs <[filename:=mk_node false t0 ""]>)
                 end k w0
            = k tt (set_fs <[filename:=mk_node false (now ext (history w0)) ""]> w0))
    as Hstep.
  { intros A k w0. destruct (fs w !! filename) as [[[|] ? ?]|] eqn:E; try done.
    pose proof (Hfile _ eq_refl) as Hd. discriminate. }
  rewrite Hstep.
  match goal with
  | |- context [bind (write_chunks ext filename ?cs ?b) _ ?w1] =>
      destruct (write_chunks_run filename cs b w1 "")
        as (w2 & Hrun & Hfs & Hh & Hl)
  end.
  { simpl. by rewrite lookup_insert_eq. }
  simpl in Hfs, Hh, Hl. rewrite <- app_assoc in *. simpl in *.
  rewrite insert_insert_eq in Hfs.
  destruct (stream_error r) as [e|].
  - rewrite (bind_raise _ _ _ _ _ Hrun). exists w2.
    split; [done|]. split; [exact Hfs|]. split; [exact Hh|].
    by rewrite app_nil_r.
  - rewrite (bind_ok _ _ _ _ _ Hrun), bind_logger_info. eexists.
    split; [reflexivity|]. simpl. rewrite Hl. done.
Qed.

End OneDownload.

Section DownloadCases.

Variable ext : externals.
Variable g : globals.

(** The turn of the loop up to the [try]. *)
Lemma download_one_needed self loc filename w :
  local_file g loc = Some filename →
  (∀ n, fs w !! filename = Some n →
        week_us <= to_microseconds (now ext (history w))
                   - to_microseconds (mtime n)) →
  download_one ext g self loc w =
  try_except (download_try ext loc filename (remote_url self loc))
    [(RequestException, fun e =>
        logger_error ("Failed to download " +:+ loc +:+ " OSM data: "
                      +:+ err_text e);;
        ret None)]
    (add_log INFO ("Downloading OSM file for " +:+ loc) w).
Proof.
  unfold download_one, local_file, remote_url. cbv zeta.
  destruct (PyStr.split "/" loc !! 1%nat) as [country|] eqn:Ec; [|done].
  intros [= <-] Hold.
  rewrite (bind_ok _ _ _ _ _ (index_in_range _ _ _ w Ec)).
  rewrite (bind_ok _ _ _ _ _ (needs_download_old ext _ w Hold)).
  by rewrite bind_logger_info.
Qed.

Lemma download_one_recent self loc filename n w :
  local_file g loc = Some filename →
  fs w !! filename = Some n →
  to_microseconds (now ext (history w)) - to_microseconds (mtime n) < week_us →
  download_one ext g self loc w = (Ok (Some filename), w).
Proof.
  unfold download_one, local_file. cbv zeta.
  destruct (PyStr.split "/" loc !! 1%nat) as [country|] eqn:Ec; [|done].
  intros [= <-] Hn Hage.
  rewrite (bind_ok _ _ _ _ _ (index_in_range _ _ _ w Ec)).
  by rewrite (bind_ok _ _ _ _ _ (needs_download_recent ext _ w n Hn Hage)).
Qed.

End DownloadCases.

(** X5. When every location has a local file less than a week old,
    [download_files] returns all the paths, in order, and does nothing
    else: no request, no write, no log record. *)
Theorem download_files_all_fresh ext g self w names :
  Forall2 (fun loc name =>
             local_file g loc = Some name
             ∧ ∃ n, fs w !! name = Some n
                    ∧ to_microseconds (now ext (history w))
                      - to_microseconds (mtime n) < week_us)
    (locations self) names →
  download_files ext g self w = (Ok names, w).
Proof.
  unfold download_files.
  assert (∀ locs acc,
            Forall2 (fun loc name =>
                       local_file g loc = Some name
                       ∧ ∃ n, fs w !! name = Some n
                              ∧ to_microseconds (now ext (history w))
                                - to_microseconds (mtime n) < week_us)
              locs names →
            download_loop ext g self locs acc w = (Ok (acc ++ names), w)) as H.
  { intros locs. revert names.
    induction locs as [|loc locs IH]; intros names acc HF.
    - apply Forall2_nil_inv_l in HF as ->. simpl. by rewrite app_nil_r.
    - apply Forall2_cons_inv_l in HF
        as (name & names' & (Hf & n & Hn & Hage) & HF & ->).
      simpl.
      rewrite (bind_ok _ _ _ _ _
                 (download_one_recent ext g self loc name n w Hf Hn Hage)).
      rewrite (IH names' _ HF). by rewrite <- app_assoc. }
  intros HF. by rewrite (H _ [] HF).
Qed.

Lemma download_files_all_fresh_witness :
  download_files Scenario.all_fine Scenario.test_globals Cases.one_place
    Cases.fresh_world
  = (Ok [Scenario.togo_file], Cases.fresh_world).
Proof.
  apply (download_files_all_fresh Scenario.all_fine Scenario.test_globals
           Cases.one_place Cases.fresh_world [Scenario.togo_file]).
  constructor; [|constructor].
  split; [reflexivity|].
  exists (mk_node false (Scenario.day 99) "NEW").
  split; [reflexivity|]. vm_compute. reflexivity.
Defined.

(** X6. A download that goes through asks for
    [base_url/location-latest.osm.pbf], opens the local file, which
    empties it, and leaves in it the chunks received, one after the
    other; the path is appended. What the file held before is gone. *)
Theorem download_stores_answer ext g self loc filename w :
  let url := remote_url self loc in
  let r := answer ext (history w) url in
  local_file g loc = Some filename →
  (∀ n, fs w !! filename = Some n →
        is_dir n = false
        ∧ week_us <= to_microseconds (now ext (history w))
                     - to_microseconds (mtime n)) →
  request_error ext (history w) url = None →
  fault ext (history w ++ [Get url]) (OpenWrite filename) = None →
  stream_error r = None →
  ∃ w',
    download_one ext g self loc w = (Ok (Some filename), w')
    ∧ fs w' = <[filename :=
                  mk_node false
                    (now ext (history w ++ [Get url; OpenWrite filename]))
                    (written (chunks r))]> (fs w)
    ∧ history w' = history w ++ [Get url; OpenWrite filename].
Proof.
  intros url r Hf Hold Hreq Hopen Hstream.
  rewrite (download_one_needed ext g self loc filename w Hf
             (fun n Hn => proj2 (Hold n Hn))).
  destruct (download_try_run ext loc filename url
              (add_log INFO ("Downloading OSM file for " +:+ loc) w)
              Hreq Hopen (fun n Hn => proj1 (Hold n Hn)))
    as (w' & Hrun & Hfs & Hh & _).
  fold r in Hrun. simpl in Hrun, Hfs, Hh. fold r in Hfs, Hrun.
  rewrite Hstream in Hrun.
  exists w'. by rewrite (try_ok _ _ _ _ _ Hrun).
Qed.

Lemma download_stores_answer_witness :
  ∃ w',
    download_one Scenario.all_fine Scenario.test_globals Cases.one_place
      "africa/togo" Scenario.stale_world = (Ok (Some Scenario.togo_file), w')
    ∧ fs w' = <[Scenario.togo_file :=
                  mk_node false (Scenario.day 100) (written ["PBF"; "DATA"])]>
                (fs Scenario.stale_world)
    ∧ history w' = [Get "https://osm.example/africa/togo-latest.osm.pbf";
                    OpenWrite Scenario.togo_file].
Proof.
  apply (download_stores_answer Scenario.all_fine Scenario.test_globals
           Cases.one_place "africa/togo" Scenario.togo_file
           Scenario.stale_world).
  - reflexivity.
  - intros n Hn. vm_compute in Hn. injection Hn as <-.
    split; [reflexivity|]. vm_compute. discriminate.
  - reflexivity.
  - reflexivity.
  - reflexivity.
Defined.

(** X7. An error of opening the local file that is not a request error
    is not caught: it leaves [download_files] at once, and the locations
    that follow are not tried. *)
Theorem download_files_open_error ext g self loc rest filename e w :
  let url := remote_url self loc in
  locations self = loc :: rest →
  local_file g loc = Some filename →
  (∀ n, fs w !! filename = Some n →
        week_us <= to_microseconds (now ext (history w))
                   - to_microseconds (mtime n)) →
  request_error ext (history w) url = None →
  fault ext (history w ++ [Get url]) (OpenWrite filename) = Some e →
  issubclass (err_class e) RequestException = false →
  download_files ext g self w =
  (Raise (Error e),
   add_call (OpenWrite filename)
     (add_call (Get url)
        (add_log INFO ("Downloading OSM file for " +:+ loc) w))).
Proof.
  intros url Hlocs Hf Hold Hreq Hopen Hcls.
  unfold download_files. rewrite Hlocs. simpl.
  apply bind_raise.
  rewrite (download_one_needed ext g self loc filename w Hf Hold).
  unfold request_error in Hreq.
  destruct (fault ext (history w) (Get url)) as [e'|] eqn:Hget;
    [discriminate Hreq|].
  cbv zeta in Hreq.
  destruct (negb (String.eqb (http_error_msg (answer ext (history w) url)) ""))
    eqn:Hst; [discriminate Hreq|].
  unfold try_except, download_try, requests_get, raise_for_status, open_write.
  rewrite bind_assoc, bind_get_history, bind_assoc, bind_invoke. simpl history.
  fold url. rewrite Hget, bind_ret. cbv zeta. rewrite Hst, bind_ret.
  rewrite !bind_assoc, bind_invoke. simpl history. rewrite Hopen.
  simpl. by rewrite Hcls.
Qed.

Lemma download_files_open_error_witness :
  download_files Cases.write_denied Scenario.test_globals Scenario.two_places
    Scenario.empty_world =
  (Raise (Error (mk_error PermissionError "denied")),
   add_call (OpenWrite Scenario.togo_file)
     (add_call (Get (remote_url Scenario.two_places "africa/togo"))
        (add_log INFO "Downloading OSM file for africa/togo"
           Scenario.empty_world))).
Proof.
  apply (download_files_open_error Cases.write_denied Scenario.test_globals
           Scenario.two_places "africa/togo" ["africa/benin"]
           Scenario.togo_file (mk_error PermissionError "denied")
           Scenario.empty_world).
  - reflexivity.
  - reflexivity.
  - intros n Hn. vm_compute in Hn. discriminate Hn.
  - reflexivity.
  - reflexivity.
  - reflexivity.
Defined.

(** X8. When the stream breaks with a request error after some chunks,
    the location is passed over, but the local file stays, cut short,
    with the time of the attempt: as long as that time is less than a
    week back, [needs_download] answers false for it. *)
Theorem download_broken_stream ext g self loc filename e w :
  let url := remote_url self loc in
  let r := answer ext (history w) url in
  let t := now ext (history w ++ [Get url; OpenWrite filename]) in
  local_file g loc = Some filename →
  (∀ n, fs w !! filename = Some n →
        is_dir n = false
        ∧ week_us <= to_microseconds (now ext (history w))
                     - to_microseconds (mtime n)) →
  request_error ext (history w) url = None →
  fault ext (history w ++ [Get url]) (OpenWrite filename) = None →
  stream_error r = Some e →
  issubclass (err_class e) RequestException = true →
  ∃ w',
    download_one ext g self loc w = (Ok None, w')
    ∧ fs w' !! filename = Some (mk_node false t (written (chunks r)))
    ∧ ∀ w2,
        fs w2 !! filename = fs w' !! filename →
        to_microseconds (now ext (history w2)) - to_microseconds t < week_us →
        needs_download ext filename w2 = (Ok false, w2).
Proof.
  intros url r t Hf Hold Hreq Hopen Hstream Hcls.
  rewrite (download_one_needed ext g self loc filename w Hf
             (fun n Hn => proj2 (Hold n Hn))).
  destruct (download_try_run ext loc filename url
              (add_log INFO ("Downloading OSM file for " +:+ loc) w)
              Hreq Hopen (fun n Hn => proj1 (Hold n Hn)))
    as (w' & Hrun & Hfs & Hh & _).
  simpl in Hrun, Hfs, Hh. fold r in Hfs, Hrun. fold t in Hfs.
  rewrite Hstream in Hrun.
  erewrite try_caught; [| exact Hrun | simpl; rewrite Hcls; reflexivity].
  eexists. split; [reflexivity|].
  simpl. rewrite Hfs, lookup_insert_eq. split; [done|].
  intros w2 Hsame Hage.
  by apply (needs_download_recent ext filename w2 _ Hsame).
Qed.

Lemma download_broken_stream_witness :
  ∃ w',
    download_one Cases.broken_stream Scenario.test_globals Cases.one_place
      "africa/togo" Scenario.stale_world = (Ok None, w')
    ∧ fs w' !! Scenario.togo_file
      = Some (mk_node false (Scenario.day 100) (written ["PBF"]))
    ∧ ∀ w2,
        fs w2 !! Scenario.togo_file = fs w' !! Scenario.togo_file →
        to_microseconds (now Cases.broken_stream (history w2))
        - to_microseconds (Scenario.day 100) < week_us →
        needs_download Cases.broken_stream Scenario.togo_file w2
        = (Ok false, w2).
Proof.
  apply (download_broken_stream Cases.broken_stream Scenario.test_globals
           Cases.one_place "africa/togo" Scenario.togo_file
           (mk_error ConnectionError "connection broken")
           Scenario.stale_world).
  - reflexivity.
  - intros n Hn. vm_compute in Hn. injection Hn as <-.
    split; [reflexivity|]. vm_compute. discriminate.
  - reflexivity.
  - reflexivity.
  - reflexivity.
  - reflexivity.
Defined.

(** ** The local name of a location *)

Lemma split_join sep a b :
  PyStr.contains sep a = false →
  PyStr.split sep (a +:+ String sep b) = a :: PyStr.split sep b.
Proof.
  induction a as [|c a IH]; simpl.
  - by rewrite Ascii.eqb_refl.
  - destruct (Ascii.eqb c sep); [discriminate|].
    intros H. by rewrite (IH H).
Qed.

(** X9. The local file is named after the second piece of the location
    only: a location with a third piece, [region/country/sub], gets the
    same local file as [region/country], whatever [sub] is. *)
Theorem local_file_second_piece g region country sub :
  PyStr.contains "/" region = false →
  PyStr.contains "/" country = false →
  local_file g (region +:+ "/" +:+ country)
  = Some (DOWNLOAD_DIR g +:+ "/" +:+ country +:+ "-latest.osm.pbf")
  ∧ local_file g (region +:+ "/" +:+ country +:+ "/" +:+ sub)
    = Some (DOWNLOAD_DIR g +:+ "/" +:+ country +:+ "-latest.osm.pbf").
Proof.
  intros Hr Hc. unfold local_file.
  change (region +:+ "/" +:+ country) with (region +:+ String "/" country).
  change (region +:+ "/" +:+ country +:+ "/" +:+ sub)
    with (region +:+ String "/" (country +:+ String "/" sub)).
  rewrite !(split_join _ _ _ Hr), (split_join _ _ _ Hc).
  by rewrite (split_without _ _ Hc).
Qed.

Lemma local_file_second_piece_witness :
  local_file Scenario.test_globals ("europe" +:+ "/" +:+ "germany")
  = Some (DOWNLOAD_DIR Scenario.test_globals +:+ "/" +:+ "germany"
          +:+ "-latest.osm.pbf")
  ∧ local_file Scenario.test_globals
      ("europe" +:+ "/" +:+ "germany" +:+ "/" +:+ "berlin")
    = Some (DOWNLOAD_DIR Scenario.test_globals +:+ "/" +:+ "germany"
            +:+ "-latest.osm.pbf").
Proof.
  apply (local_file_second_piece Scenario.test_globals "europe" "germany"
           "berlin"); reflexivity.
Defined.

(** ** More on the configuration file *)

Section MoreReadVars.

Import PyStr.

(** A key no line assigns to stays as it is in the dictionary. *)
Lemma read_vars_untouched lines vars vars' key :
  read_vars lines vars = Ok vars' →
  (∀ l v, l ∈ lines → ¬ assigns l key v) →
  dict_get vars' key = dict_get vars key.
Proof.
  revert vars. induction lines as [|l lines IH]; intros vars; simpl.
  - by intros [= <-].
  - intros H Hno.
    assert (∀ l' v, l' ∈ lines → ¬ assigns l' key v) as Hrest.
    { intros l' v Hl. apply Hno. by right. }
    destruct (String.eqb (strip l) "" || startswith "#" (strip l)
              || negb (contains "=" (strip l))) eqn:Et; [by apply IH|].
    destruct (split1 "=" (strip l)) as [|k [|v [|]]] eqn:Es; try discriminate.
    rewrite (IH _ H Hrest), dict_get_setdefault.
    destruct (dict_get vars key); [done|].
    destruct (String.eqb k key) eqn:E; [|done].
    apply String.eqb_eq in E as ->.
    destruct (Hno l v); [by left | by apply passes_assigns].
Qed.

End MoreReadVars.

(** X10. A line is an assignment exactly when, stripped, it reads
    [key=value] with no ["="] in [key] and no ["#"] at its start: such a
    line enters [key] with [setdefault], the key and the value taken as
    they stand, and every other line (blank, comment, no ["="]) is
    passed over without a word. *)
Theorem read_vars_one_line line vars :
  (∀ key value,
     assigns line key value →
     read_vars [line] vars = Ok (dict_setdefault vars key value))
  ∧ ((∀ key value, ¬ assigns line key value) →
     read_vars [line] vars = Ok vars).
Proof.
  split.
  - intros key value Ha. simpl.
    by destruct (assigns_passes _ _ _ Ha) as [-> ->].
  - intros Hno. simpl.
    destruct (String.eqb (PyStr.strip line) ""
              || PyStr.startswith "#" (PyStr.strip line)
              || negb (PyStr.contains "=" (PyStr.strip line))) eqn:Et; [done|].
    pose proof Et as Et'.
    apply orb_false_elim in Et' as [_ Hc]. apply negb_false_iff in Hc.
    destruct (split1_two _ _ Hc) as (k & v & Hs).
    destruct (Hno k v). by apply passes_assigns.
Qed.

Lemma read_vars_one_line_witness :
  read_vars ["  A = 1=2  "] [] = Ok (dict_setdefault [] "A " " 1=2")
  ∧ read_vars ["# A=1"] [("B", "2")] = Ok [("B", "2")].
Proof.
  split.
  - apply (proj1 (read_vars_one_line "  A = 1=2  " []) "A " " 1=2").
    repeat split; reflexivity.
  - apply (proj2 (read_vars_one_line "# A=1" [("B", "2")])).
    intros key value (Hs & Hk & Hc).
    change (PyStr.strip "# A=1") with ("# A=1") in Hs.
    destruct key as [|a key]; [discriminate Hs|].
    injection Hs as <- _. discriminate Hc.
Defined.

(** X11. A variable that no line of the file assigns to is left as it
    was, in both modes: set or not set, it is the same after the load. *)
Theorem load_env_file_other_keys ext input override w path key :
  path = (if is_regular_file w input then input else ".env") →
  is_regular_file w path = true →
  fault ext (history w) (OpenRead path) = None →
  (∀ l v, l ∈ PyStr.splitlines (text_of w path) → ¬ assigns l key v) →
  environ (load_env_file ext input override w).2 !! key = environ w !! key.
Proof.
  intros Hpath Hfile Hread Hno.
  destruct (load_env_file_any ext input override w path Hpath Hfile Hread)
    as (vars & r & env' & Hvars & -> & He).
  simpl. destruct (He key) as [->|[[v Hv] _]]; [done|].
  by rewrite (read_vars_untouched _ _ _ _ Hvars Hno) in Hv.
Qed.

Lemma load_env_file_other_keys_witness :
  environ (load_env_file Scenario.all_fine ".osm.env" true
             Scenario.dup_world).2 !! "B"
  = environ Scenario.dup_world !! "B".
Proof.
  apply (load_env_file_other_keys Scenario.all_fine ".osm.env" true
           Scenario.dup_world ".osm.env" "B").
  - reflexivity.
  - reflexivity.
  - reflexivity.
  - intros l v Hl (Hs & Hk & Hc).
    apply list_elem_of_In in Hl. vm_compute in Hl.
    destruct Hl as [<-|[<-|[]]]; vm_compute in Hs;
      destruct v; discriminate Hs.
Defined.

(** X12. When a load has returned, loading the same file a second
    time returns too and changes nothing: the environment after two
    loads is the environment after one, in both modes. *)
Theorem load_env_file_twice ext input override w path w1 :
  path = (if is_regular_file w input then input else ".env") →
  is_regular_file w path = true →
  fault ext (history w) (OpenRead path) = None →
  fault ext (history w ++ [OpenRead path]) (OpenRead path) = None →
  load_env_file ext input override w = (Ok tt, w1) →
  ∃ w2,
    load_env_file ext input override w1 = (Ok tt, w2)
    ∧ environ w2 = environ w1.
Proof.
  intros Hpath Hfile Hread Hread2 H1.
  destruct (load_env_file_reduce ext input override w path Hpath Hfile Hread)
    as (vars & Hvars & Hnd & Hfirst).
  rewrite Hfirst in H1. clear Hfirst. destruct override.
  - pose proof (environ_update_returns _ _ _ H1) as Hok.
    rewrite (environ_update_ok _ _ Hok) in H1. injection H1 as <-.
    match goal with
    | |- context [load_env_file ext input true ?W1] =>
        destruct (load_env_file_reduce ext input true W1 path
                    Hpath Hfile Hread2) as (vars' & Hvars' & _ & ->)
    end.
    change (read_vars (PyStr.splitlines (text_of w path)) [] = Ok vars')
      in Hvars'.
    assert (vars' = vars) as -> by congruence.
    rewrite (environ_update_ok _ _ Hok).
    eexists. split; [reflexivity|]. simpl.
    apply map_eq. intros k. rewrite !update_lookup by done.
    by destruct (dict_get vars k).
  - destruct (environ_setdefault_all_any vars (add_call (OpenRead path) w))
      as (r & env1 & Hrun & _).
    rewrite Hrun in H1. injection H1 as -> <-.
    pose proof (environ_setdefault_all_sets _ _ _ Hrun) as Hset.
    match goal with
    | |- context [load_env_file ext input false ?W1] =>
        destruct (load_env_file_reduce ext input false W1 path
                    Hpath Hfile Hread2) as (vars' & Hvars' & _ & ->)
    end.
    change (read_vars (PyStr.splitlines (text_of w path)) [] = Ok vars')
      in Hvars'.
    assert (vars' = vars) as -> by congruence.
    rewrite environ_setdefault_all_idle; [|exact Hset].
    eexists. split; [reflexivity | done].
Qed.

Lemma load_env_file_twice_witness :
  ∃ w2,
    load_env_file Scenario.all_fine ".osm.env" false
      (load_env_file Scenario.all_fine ".osm.env" false Scenario.env_world).2
    = (Ok tt, w2)
    ∧ environ w2
      = environ (load_env_file Scenario.all_fine ".osm.env" false
                   Scenario.env_world).2.
Proof.
  apply (load_env_file_twice Scenario.all_fine ".osm.env" false
           Scenario.env_world ".osm.env"); reflexivity.
Defined.

(** X13. A configuration file that is there but cannot be opened is not
    a fatal configuration error: the error of [open] leaves
    [load_env_file] as it is, the environment untouched, and at the top
    of the script it ends the process with status 1. *)
Theorem load_env_file_unreadable ext input override w path e :
  path = (if is_regular_file w input then input else ".env") →
  is_regular_file w path = true →
  fault ext (history w) (OpenRead path) = Some e →
  load_env_file ext input override w
  = (Raise (Error e), add_call (OpenRead path) w)
  ∧ (input = ".osm.env" → override = false →
     script ext w = (Raise (Error e), add_call (OpenRead path) w)
     ∧ exit_status (script ext w).1 = 1).
Proof.
  intros Hpath Hfile Hread.
  assert (load_env_file ext input override w
          = (Raise (Error e), add_call (OpenRead path) w)) as Hload.
  { unfold load_env_file. cbv zeta. rewrite bind_path_is_file.
    assert (∀ A (k : string → M A),
              bind (if is_regular_file w input then ret input
                    else fallback <- path_is_file ".env";;
                         if fallback then ret ".env"
                         else logger_critical "Unable to load env vars";;
                              sys_exit None) k w = k path w) as Hsel.
    { intros A k. destruct (is_regular_file w input); subst path; [done|].
      rewrite bind_assoc, bind_path_is_file, Hfile. done. }
    rewrite Hsel. unfold read_text, open_read.
    by rewrite !bind_assoc, bind_invoke, Hread. }
  split; [exact Hload|].
  intros -> ->.
  assert (script ext w = (Raise (Error e), add_call (OpenRead path) w)) as Hs.
  { unfold script, module_init. rewrite !bind_assoc.
    by rewrite (bind_raise _ _ _ _ _ Hload). }
  by rewrite Hs.
Qed.

Lemma load_env_file_unreadable_witness :
  load_env_file Cases.read_denied ".osm.env" false Scenario.env_world
  = (Raise (Error (mk_error PermissionError "denied")),
     add_call (OpenRead ".osm.env") Scenario.env_world)
  ∧ (script Cases.read_denied Scenario.env_world
     = (Raise (Error (mk_error PermissionError "denied")),
        add_call (OpenRead ".osm.env") Scenario.env_world)
     ∧ exit_status (script Cases.read_denied Scenario.env_world).1 = 1).
Proof.
  destruct (load_env_file_unreadable Cases.read_denied ".osm.env" false
              Scenario.env_world ".osm.env"
              (mk_error PermissionError "denied")
              eq_refl eq_refl eq_refl) as [H1 H2].
  split; [exact H1 | exact (H2 eq_refl eq_refl)].
Defined.

(** ** The module-level names *)

(** X14. The module-level names are read from the environment as the
    load of the configuration file leaves it: the list of locations is
    the setting cut at its commas and is never empty (an empty setting
    gives one empty location), the two directories lie under the data
    directory, the source address is the setting or nothing, the upload
    is off unless set, and the endpoint defaults to the one of the
    account. *)
Theorem module_init_reads_environment ext w g w0 :
  module_init ext w = (Ok g, w0) →
  let env := environ w0 in
  all_locations g
  = PyStr.split "," (getenv_or env "OSM_LOCATIONS" "africa/togo,africa/benin")
  ∧ all_locations g ≠ []
  ∧ DATA_DIR g = getenv_or env "DATA_DIR" "./"
  ∧ DOWNLOAD_DIR g = DATA_DIR g +:+ "/osm_downloads"
  ∧ OSM_DIR g = DATA_DIR g +:+ "/openstreetmap"
  ∧ OSM_SOURCE g = env !! "OSM_SOURCE"
  ∧ (env !! "S3_ENABLED" = None → S3_ENABLED g = false)
  ∧ (env !! "S3_ENDPOINT_URL" = None →
     ∀ account, env !! "S3_ACCOUNT_ID" = Some account →
     endpoint_url (S3_CONFIG g)
     = "https://" +:+ account +:+ ".r2.cloudflarestorage.com").
Proof.
  unfold module_init. intros H.
  apply bind_ok_inv in H as (? & w1 & _ & H).
  do 2 apply bind_ok_inv in H as (? & ? & [= <- <-] & H).
  do 3 apply bind_ok_inv in H as (? & ? & [= <- <-] & H).
  apply bind_ok_inv in H as (enabled & ? & Heval & H).
  pose proof (eval_setting_world _ _ _ _ _ Heval) as ->.
  do 5 apply bind_ok_inv in H as (? & ? & [= <- <-] & H).
  injection H as <- <-. simpl. unfold getenv_or.
  split; [done|]. split; [apply split_not_nil|].
  split; [done|]. split; [done|]. split; [done|]. split; [done|].
  split.
  - intros Hnone. simpl in Heval. rewrite Hnone in Heval.
    by injection Heval as <-.
  - intros Hnone account Hacc. by rewrite Hnone, Hacc.
Qed.

Lemma module_init_reads_environment_witness :
  ∃ g w0,
    module_init Scenario.all_fine Scenario.ready_world = (Ok g, w0)
    ∧ all_locations g
      = PyStr.split ","
          (getenv_or (environ w0) "OSM_LOCATIONS" "africa/togo,africa/benin")
    ∧ all_locations g ≠ []
    ∧ DATA_DIR g = getenv_or (environ w0) "DATA_DIR" "./"
    ∧ DOWNLOAD_DIR g = DATA_DIR g +:+ "/osm_downloads"
    ∧ OSM_DIR g = DATA_DIR g +:+ "/openstreetmap"
    ∧ OSM_SOURCE g = environ w0 !! "OSM_SOURCE"
    ∧ (environ w0 !! "S3_ENABLED" = None → S3_ENABLED g = false)
    ∧ (environ w0 !! "S3_ENDPOINT_URL" = None →
       ∀ account, environ w0 !! "S3_ACCOUNT_ID" = Some account →
       endpoint_url (S3_CONFIG g)
       = "https://" +:+ account +:+ ".r2.cloudflarestorage.com").
Proof.
  eexists _, _. split; [vm_compute; reflexivity|].
  apply (module_init_reads_environment Scenario.all_fine Scenario.ready_world).
  vm_compute. reflexivity.
Defined.

(** ** The constructor *)

Section Init.

Variable ext : externals.
Variable g : globals.

(** [os.makedirs] returns or raises an error; it never ends the
    process. *)
Lemma os_makedirs_cases p w :
  os_makedirs ext p w
  = match fault ext (history w) (Makedirs p) with
    | Some e => (Raise (Error e), add_call (Makedirs p) w)
    | None =>
        match fs w !! p with
        | Some _ =>
            (Raise (Error (mk_error FileExistsError p)),
             add_call (Makedirs p) w)
        | None =>
            (Ok tt,
             set_fs (insert p (mk_node true
                                 (now ext (history w ++ [Makedirs p])) ""))
               (add_call (Makedirs p) w))
        end
    end.
Proof.
  unfold os_makedirs. rewrite bind_invoke.
  destruct (fault ext (history w) (Makedirs p)); [done|].
  rewrite bind_lookup_node. simpl. by destruct (fs w !! p).
Qed.

(** [if not os.path.exists(p): os.makedirs(p)], followed by more and as
    the last statement. *)
Lemma ensure_dir_run {A} p (k : unit → M A) w :
  bind (os_path_exists p)
    (fun present =>
       bind (if negb present then os_makedirs ext p else ret tt) k) w
  = match fs w !! p with
    | Some _ => k tt w
    | None =>
        match fault ext (history w) (Makedirs p) with
        | Some e => (Raise (Error e), add_call (Makedirs p) w)
        | None =>
            k tt (set_fs (insert p (mk_node true
                                      (now ext (history w ++ [Makedirs p])) ""))
                    (add_call (Makedirs p) w))
        end
    end.
Proof.
  unfold os_path_exists.
  rewrite bind_assoc, bind_lookup_node, bind_ret.
  destruct (fs w !! p) as [n|] eqn:E; simpl; [done|].
  unfold bind at 1. rewrite os_makedirs_cases, E.
  by destruct (fault ext (history w) (Makedirs p)).
Qed.

Lemma ensure_dir_last p w :
  bind (os_path_exists p)
    (fun present => if negb present then os_makedirs ext p else ret tt) w
  = match fs w !! p with
    | Some _ => (Ok tt, w)
    | None =>
        match fault ext (history w) (Makedirs p) with
        | Some e => (Raise (Error e), add_call (Makedirs p) w)
        | None =>
            (Ok tt,
             set_fs (insert p (mk_node true
                                 (now ext (history w ++ [Makedirs p])) ""))
               (add_call (Makedirs p) w))
        end
    end.
Proof.
  unfold os_path_exists.
  rewrite bind_assoc, bind_lookup_node, bind_ret.
  destruct (fs w !! p) as [n|] eqn:E; simpl; [done|].
  rewrite os_makedirs_cases, E.
  by destruct (fault ext (history w) (Makedirs p)).
Qed.

(** The [try] block of the constructor returns or raises an error. *)
Lemma init_try_no_exit w c w' :
  (osm_dir <- os_path_exists (OSM_DIR g);;
   (if negb osm_dir then os_makedirs ext (OSM_DIR g) else ret tt);;
   download_dir <- os_path_exists (DOWNLOAD_DIR g);;
   (if negb download_dir then os_makedirs ext (DOWNLOAD_DIR g) else ret tt)) w
  ≠ (Raise (SystemExit c), w').
Proof.
  rewrite ensure_dir_run.
  assert (∀ w1,
            bind (os_path_exists (DOWNLOAD_DIR g))
              (fun present =>
                 if negb present then os_makedirs ext (DOWNLOAD_DIR g)
                 else ret tt) w1
            ≠ (Raise (SystemExit c), w')) as Hsecond.
  { intros w1. rewrite ensure_dir_last.
    destruct (fs w1 !! DOWNLOAD_DIR g); [done|].
    by destruct (fault ext (history w1) (Makedirs (DOWNLOAD_DIR g))). }
  destruct (fs w !! OSM_DIR g); [apply Hsecond|].
  destruct (fault ext (history w) (Makedirs (OSM_DIR g))); [done|].
  apply Hsecond.
Qed.

End Init.

(** A [try] with the one clause [except C: pass], around a block that
    does not end the process, returns or raises an error that is no
    instance of [C]. *)
Lemma try_pass_run (body : M unit) C w :
  (∀ c w', body w ≠ (Raise (SystemExit c), w')) →
  match (try_except body [(C, fun _ => ret tt)] w).1 with
  | Ok _ => True
  | Raise (Error e) => issubclass (err_class e) C = false
  | Raise (SystemExit _) => False
  end.
Proof.
  intros Hno. unfold try_except.
  destruct (body w) as [[a|[e|c]] w1] eqn:E; simpl; [done| |].
  - by destruct (issubclass (err_class e) C) eqn:Ec.
  - by destruct (Hno c w1).
Qed.

(** X15. The constructor returns the handler with the address and the
    locations it was given, or raises an error that is not a
    [FileExistsError]: that one is swallowed, whichever of the two
    directories it comes from. It never ends the process. *)
Theorem init_swallows_file_exists ext g source locs w :
  match (init ext g source locs w).1 with
  | Ok handler => handler = mk_handler source locs
  | Raise (Error e) => issubclass (err_class e) FileExistsError = false
  | Raise (SystemExit _) => False
  end.
Proof.
  unfold init.
  match goal with
  | |- context [try_except ?body ?clauses] =>
      pose proof (try_pass_run body FileExistsError w
                    (init_try_no_exit ext g w)) as Htry;
      destruct (try_except body clauses w) as [[[]|r] w1] eqn:E
  end.
  - by rewrite (bind_ok _ _ _ _ _ E).
  - rewrite (bind_raise _ _ _ _ _ E). exact Htry.
Qed.

(** X16. When making a directory does not fail, the constructor returns
    and both directories are there afterwards; what was in the file
    system stays, and if both directories were there already nothing is
    called and nothing changes. *)
Theorem init_creates_directories ext g source locs w :
  (∀ h p, fault ext h (Makedirs p) = None) →
  ∃ w',
    init ext g source locs w = (Ok (mk_handler source locs), w')
    ∧ is_Some (fs w' !! OSM_DIR g)
    ∧ is_Some (fs w' !! DOWNLOAD_DIR g)
    ∧ (∀ p n, fs w !! p = Some n → fs w' !! p = Some n)
    ∧ (is_Some (fs w !! OSM_DIR g) → is_Some (fs w !! DOWNLOAD_DIR g) →
       w' = w).
Proof.
  intros Hfault.
  assert (∃ w',
            (osm_dir <- os_path_exists (OSM_DIR g);;
             (if negb osm_dir then os_makedirs ext (OSM_DIR g) else ret tt);;
             download_dir <- os_path_exists (DOWNLOAD_DIR g);;
             (if negb download_dir then os_makedirs ext (DOWNLOAD_DIR g)
              else ret tt)) w = (Ok tt, w')
            ∧ is_Some (fs w' !! OSM_DIR g)
            ∧ is_Some (fs w' !! DOWNLOAD_DIR g)
            ∧ (∀ p n, fs w !! p = Some n → fs w' !! p = Some n)
            ∧ (is_Some (fs w !! OSM_DIR g) →
               is_Some (fs w !! DOWNLOAD_DIR g) → w' = w)) as Hbody.
  { rewrite ensure_dir_run.
    destruct (fs w !! OSM_DIR g) as [n1|] eqn:E1.
    - rewrite ensure_dir_last.
      destruct (fs w !! DOWNLOAD_DIR g) as [n2|] eqn:E2.
      + exists w. rewrite E1, E2. by eauto 10.
      + rewrite Hfault. eexists. split; [reflexivity|]. simpl.
        split; [|split; [|split]].
        * rewrite lookup_insert_ne; [by rewrite E1 | congruence].
        * rewrite lookup_insert_eq. by eauto.
        * intros p n Hp. rewrite lookup_insert_ne; [done | congruence].
        * intros _ [? ?]. discriminate.
    - rewrite Hfault, ensure_dir_last. simpl fs.
      destruct (decide (OSM_DIR g = DOWNLOAD_DIR g)) as [Heq|Hne].
      + rewrite <- Heq, lookup_insert_eq.
        eexists. split; [reflexivity|]. simpl.
        rewrite lookup_insert_eq.
        split; [by eauto|]. split; [by eauto|]. split.
        * intros p n Hp. rewrite lookup_insert_ne; [done | congruence].
        * intros [? ?]. discriminate.
      + rewrite lookup_insert_ne by done.
        destruct (fs w !! DOWNLOAD_DIR g) as [n2|] eqn:E2.
        * eexists. split; [reflexivity|]. simpl.
          rewrite lookup_insert_eq, lookup_insert_ne, E2 by done.
          split; [by eauto|]. split; [by eauto|]. split.
          -- intros p n Hp. rewrite lookup_insert_ne; [done | congruence].
          -- intros [? ?]. discriminate.
        * rewrite Hfault. eexists. split; [reflexivity|]. simpl.
          rewrite lookup_insert_eq, lookup_insert_ne, lookup_insert_eq
            by done.
          split; [by eauto|]. split; [by eauto|]. split.
          -- intros p n Hp.
             rewrite !lookup_insert_ne; [done | congruence | congruence].
          -- intros [? ?]. discriminate. }
  destruct Hbody as (w' & Hbody & H1 & H2 & H3 & H4).
  exists w'. unfold init.
  rewrite (bind_ok _ _ _ _ _ (try_ok _ _ _ _ _ Hbody)).
  done.
Qed.

Lemma init_creates_directories_witness :
  ∃ w',
    init Scenario.all_fine Scenario.test_globals "https://osm.example"
      ["africa/togo"] Scenario.empty_world
    = (Ok (mk_handler "https://osm.example" ["africa/togo"]), w')
    ∧ is_Some (fs w' !! OSM_DIR Scenario.test_globals)
    ∧ is_Some (fs w' !! DOWNLOAD_DIR Scenario.test_globals)
    ∧ (∀ p n, fs Scenario.empty_world !! p = Some n → fs w' !! p = Some n)
    ∧ (is_Some (fs Scenario.empty_world !! OSM_DIR Scenario.test_globals) →
       is_Some (fs Scenario.empty_world !! DOWNLOAD_DIR Scenario.test_globals) →
       w' = Scenario.empty_world).
Proof.
  apply (init_creates_directories Scenario.all_fine Scenario.test_globals
           "https://osm.example" ["africa/togo"] Scenario.empty_world).
  reflexivity.
Defined.

(** ** A merge that goes through *)

Lemma add_files_ok ext inputs reader w :
  (∀ h c, is_merge_call c = true → fault ext h c = None) →
  ∃ reader' w',
    add_files ext inputs reader w = (Ok reader', w')
    ∧ history w' = history w ++ map AddFile inputs
    ∧ fs w' = fs w.
Proof.
  intros Hfault. revert reader w.
  induction inputs as [|f inputs IH]; intros reader w; simpl.
  - exists reader, w. by rewrite app_nil_r.
  - rewrite bind_logger_info, bind_invoke. simpl history.
    rewrite (Hfault _ (AddFile f) eq_refl), bind_lookup_node.
    match goal with
    | |- context [add_files ext inputs ?rd ?w1] =>
        destruct (IH rd w1) as (reader' & w' & -> & Hh & Hfs)
    end.
    exists reader', w'. split; [done|]. simpl in Hh, Hfs.
    split; [by rewrite Hh, <- app_assoc | done].
Qed.

(** X17. When no call into the merge library fails, [merge_files]
    returns the output path, however the deletion of the old file went,
    and the inputs are added in the order given, each once, between the
    opening of the reader and the merge. *)
Theorem merge_files_in_order ext inputs out w :
  (∀ h c, is_merge_call c = true → fault ext h c = None) →
  ∃ w',
    merge_files ext inputs out w = (Ok (Some out), w')
    ∧ history w'
      = history w ++ [Unlink out; SimpleWriter out; MergeInputReader]
        ++ map AddFile inputs ++ [Apply].
Proof.
  intros Hfault. unfold merge_files, merge_files_try.
  rewrite try_except_Exception, bind_logger_info.
  destruct (clean_old_merge_run ext out
              (add_log INFO "Starting merge process" w)) as (w1 & Hc & H1).
  rewrite (bind_ok _ _ _ _ _ Hc). simpl in H1.
  rewrite bind_invoke, (Hfault _ (SimpleWriter out) eq_refl).
  rewrite bind_datetime_now, bind_modify, bind_invoke.
  rewrite (Hfault _ MergeInputReader eq_refl).
  match goal with
  | |- context [bind (add_files ext inputs []) _ ?w2] =>
      destruct (add_files_ok ext inputs [] w2 Hfault)
        as (reader & w3 & Ha & H3 & Hfs)
  end.
  rewrite (bind_ok _ _ _ _ _ Ha), bind_invoke.
  rewrite (Hfault _ Apply eq_refl).
  rewrite bind_datetime_now, bind_modify, bind_logger_info.
  eexists. split; [reflexivity|]. simpl in *.
  rewrite H3, H1, <- !app_assoc. done.
Qed.

Lemma merge_files_in_order_witness :
  ∃ w',
    merge_files Scenario.unlink_denied ["a.pbf"; "b.pbf"] "all.osm.pbf"
      Scenario.empty_world = (Ok (Some "all.osm.pbf"), w')
    ∧ history w'
      = history Scenario.empty_world
        ++ [Unlink "all.osm.pbf"; SimpleWriter "all.osm.pbf"; MergeInputReader]
        ++ map AddFile ["a.pbf"; "b.pbf"] ++ [Apply].
Proof.
  apply (merge_files_in_order Scenario.unlink_denied ["a.pbf"; "b.pbf"]
           "all.osm.pbf" Scenario.empty_world).
  intros h c Hc. by destruct c.
Defined.

(** * The claims on the list returned and on the configuration file *)

(** ** Which locations contribute a path *)

Section Contribute.

Variable ext : externals.
Variable g : globals.

Lemma needs_download_fresh f w :
  needs_download ext f w = (Ok (negb (is_fresh ext w f)), w).
Proof.
  rewrite needs_download_run. unfold is_fresh.
  destruct (fs w !! f) as [n|]; [|done].
  by rewrite week_old, negb_involutive.
Qed.

(** One turn of the loop, by cases on the freshness of the local file. *)
Lemma download_one_unfold self loc f w :
  local_file g loc = Some f →
  download_one ext g self loc w =
  if is_fresh ext w f then (Ok (Some f), w)
  else
    try_except (download_try ext loc f (remote_url self loc))
      [(RequestException, fun e =>
          logger_error ("Failed to download " +:+ loc +:+ " OSM data: "
                        +:+ err_text e);;
          ret None)]
      (add_log INFO ("Downloading OSM file for " +:+ loc) w).
Proof.
  unfold download_one, local_file, remote_url. cbv zeta.
  destruct (PyStr.split "/" loc !! 1%nat) as [country|] eqn:Ec; [|done].
  intros [= <-].
  rewrite (bind_ok _ _ _ _ _ (index_in_range _ _ _ w Ec)).
  rewrite (bind_ok _ _ _ _ _ (needs_download_fresh _ w)).
  by destruct (is_fresh ext w _).
Qed.

(** The [try] block when the request fails or is answered with an
    error status. *)
Lemma download_try_request_failed loc f url w e :
  request_error ext (history w) url = Some e →
  download_try ext loc f url w = (Raise (Error e), add_call (Get url) w).
Proof.
  unfold request_error, download_try, requests_get, raise_for_status.
  rewrite bind_assoc, bind_get_history, bind_assoc, bind_invoke.
  destruct (fault ext (history w) (Get url)) as [e'|]; [by intros [= ->]|].
  rewrite bind_ret. cbv zeta.
  destruct (negb (String.eqb (http_error_msg (answer ext (history w) url)) ""));
    [|discriminate].
  by intros [= <-].
Qed.

(** The [try] block when the local file cannot be opened. *)
Lemma download_try_open_failed loc f url w e :
  request_error ext (history w) url = None →
  fault ext (history w ++ [Get url]) (OpenWrite f) = Some e →
  download_try ext loc f url w
  = (Raise (Error e), add_call (OpenWrite f) (add_call (Get url) w)).
Proof.
  unfold request_error, download_try, requests_get, raise_for_status,
    open_write.
  rewrite bind_assoc, bind_get_history, bind_assoc, bind_invoke.
  destruct (fault ext (history w) (Get url)) as [e'|]; [discriminate|].
  rewrite bind_ret. cbv zeta.
  destruct (negb (String.eqb (http_error_msg (answer ext (history w) url)) ""));
    [discriminate|].
  intros _ Hopen. rewrite bind_ret, !bind_assoc, bind_invoke.
  simpl history. by rewrite Hopen.
Qed.

(** The [try] block when the local name is a directory. *)
Lemma download_try_is_dir loc f url w n :
  request_error ext (history w) url = None →
  fault ext (history w ++ [Get url]) (OpenWrite f) = None →
  fs w !! f = Some n → is_dir n = true →
  download_try ext loc f url w
  = (Raise (Error (mk_error IsADirectoryError f)),
     add_call (OpenWrite f) (add_call (Get url) w)).
Proof.
  unfold request_error, download_try, requests_get, raise_for_status,
    open_write.
  rewrite bind_assoc, bind_get_history, bind_assoc, bind_invoke.
  destruct (fault ext (history w) (Get url)) as [e'|]; [discriminate|].
  rewrite bind_ret. cbv zeta.
  destruct (negb (String.eqb (http_error_msg (answer ext (history w) url)) ""));
    [discriminate|].
  intros _ Hopen Hn Hd. rewrite bind_ret, !bind_assoc, bind_invoke.
  simpl history. rewrite Hopen, bind_assoc, bind_lookup_node. simpl fs.
  rewrite Hn. by destruct n as [[|] ? ?].
Qed.

(** A turn of the loop that comes to its end appends the local file
    exactly when the file is fresh or the download goes through. *)
Lemma download_one_keeps self loc w o w1 :
  download_one ext g self loc w = (Ok o, w1) →
  ∃ f,
    local_file g loc = Some f
    ∧ o = if is_fresh ext w f || fetched ext self loc f w
          then Some f else None.
Proof.
  intros H.
  destruct (download_one_spec ext g self loc w o w1 H) as (f & Hf & _).
  exists f. split; [done|].
  rewrite (download_one_unfold self loc f w Hf) in H.
  destruct (is_fresh ext w f); [by injection H as <- _|].
  simpl. unfold fetched. cbv zeta.
  set (url := remote_url self loc) in *.
  set (W := add_log INFO ("Downloading OSM file for " +:+ loc) w) in *.
  assert (∀ e w2,
            download_try ext loc f url W = (Raise (Error e), w2) →
            o = None) as Hfail.
  { intros e w2 Hrun. unfold try_except in H. rewrite Hrun in H. simpl in H.
    destruct (issubclass (err_class e) RequestException); [|discriminate].
    by injection H as <- _. }
  destruct (request_error ext (history w) url) as [e|] eqn:Hreq.
  { exact (Hfail _ _ (download_try_request_failed loc f url W e Hreq)). }
  destruct (fault ext (history w ++ [Get url]) (OpenWrite f)) as [e|] eqn:Hopen.
  { exact (Hfail _ _ (download_try_open_failed loc f url W e Hreq Hopen)). }
  destruct (fs w !! f) as [n|] eqn:Hn.
  - destruct (is_dir n) eqn:Hd.
    { pose proof (download_try_is_dir loc f url W n Hreq Hopen Hn Hd) as Hrun.
      unfold try_except in H. rewrite Hrun in H. discriminate H. }
    destruct (download_try_run ext loc f url W Hreq Hopen) as (w2 & Hrun & _).
    { intros n' Hn'. change (fs W) with (fs w) in Hn'. congruence. }
    change (history W) with (history w) in Hrun.
    destruct (stream_error (answer ext (history w) url)) as [e|].
    + exact (Hfail _ _ Hrun).
    + rewrite (try_ok _ _ _ _ _ Hrun) in H. by injection H as <- _.
  - destruct (download_try_run ext loc f url W Hreq Hopen) as (w2 & Hrun & _).
    { intros n' Hn'. change (fs W) with (fs w) in Hn'. congruence. }
    change (history W) with (history w) in Hrun.
    destruct (stream_error (answer ext (history w) url)) as [e|].
    + exact (Hfail _ _ Hrun).
    + rewrite (try_ok _ _ _ _ _ Hrun) in H. by injection H as <- _.
Qed.

(** The loop returns the list the amended claim speaks of. *)
Lemma download_loop_expected self locs acc w r w' :
  download_loop ext g self locs acc w = (Ok r, w') →
  r = acc ++ expected_paths ext g self locs w.
Proof.
  revert acc w. induction locs as [|loc locs IH]; intros acc w; simpl.
  - intros [= <- _]. by rewrite app_nil_r.
  - intros H. apply bind_ok_inv in H as (o & w1 & Hone & H).
    destruct (download_one_keeps self loc w o w1 Hone) as (f & -> & ->).
    rewrite Hone. simpl.
    destruct (is_fresh ext w f || fetched ext self loc f w).
    + rewrite (IH _ _ H). by rewrite <- app_assoc.
    + by rewrite (IH _ _ H).
Qed.

End Contribute.

Section Returns.

Variable ext : externals.
Variable g : globals.

Hypothesis get_faults :
  ∀ h url e, fault ext h (Get url) = Some e →
             issubclass (err_class e) RequestException = true.
Hypothesis open_faults : ∀ h f, fault ext h (OpenWrite f) = None.
Hypothesis stream_faults :
  ∀ h url e, stream_error (answer ext h url) = Some e →
             issubclass (err_class e) RequestException = true.

Lemma request_error_class h url e :
  request_error ext h url = Some e →
  issubclass (err_class e) RequestException = true.
Proof.
  unfold request_error.
  destruct (fault ext h (Get url)) as [e'|] eqn:Hget.
  - intros [= <-]. by eapply get_faults.
  - cbv zeta. destruct (negb (String.eqb _ "")); [|discriminate].
    by intros [= <-].
Qed.

(** With failures of these kinds only, a turn of the loop comes to its
    end, and leaves the files as they were or writes a regular file. *)
Lemma download_one_total self loc f w :
  local_file g loc = Some f →
  (∀ n, fs w !! f = Some n → is_dir n = false) →
  ∃ o w1,
    download_one ext g self loc w = (Ok o, w1)
    ∧ (fs w1 = fs w ∨ ∃ t d, fs w1 = <[f := mk_node false t d]> (fs w)).
Proof.
  intros Hf Hreg. rewrite (download_one_unfold ext g self loc f w Hf).
  destruct (is_fresh ext w f); [by eexists _, _; split; [|left]|].
  set (url := remote_url self loc).
  set (W := add_log INFO ("Downloading OSM file for " +:+ loc) w).
  destruct (request_error ext (history w) url) as [e|] eqn:Hreq.
  { pose proof (download_try_request_failed ext loc f url W e Hreq) as Hrun.
    unfold try_except. rewrite Hrun. simpl.
    rewrite (request_error_class _ _ _ Hreq).
    eexists _, _. split; [reflexivity|]. by left. }
  destruct (download_try_run ext loc f url W Hreq (open_faults _ _))
    as (w2 & Hrun & Hfs & _).
  { exact Hreg. }
  change (history W) with (history w) in Hrun, Hfs.
  change (fs W) with (fs w) in Hfs.
  destruct (stream_error (answer ext (history w) url)) as [e|] eqn:Hs.
  - unfold try_except. rewrite Hrun. simpl.
    rewrite (stream_faults _ _ _ Hs).
    eexists _, _. split; [reflexivity|]. right. simpl. by eexists _, _.
  - rewrite (try_ok _ _ _ _ _ Hrun).
    eexists _, _. split; [reflexivity|]. right. by eexists _, _.
Qed.

Lemma download_loop_total self locs acc w :
  (∀ loc, loc ∈ locs → is_Some (local_file g loc)) →
  (∀ loc f n, loc ∈ locs → local_file g loc = Some f →
              fs w !! f = Some n → is_dir n = false) →
  ∃ r w', download_loop ext g self locs acc w = (Ok r, w').
Proof.
  revert acc w. induction locs as [|loc locs IH]; intros acc w Hsome Hreg.
  - by eexists _, _.
  - destruct (Hsome loc) as [f Hf]; [by left|].
    destruct (download_one_total self loc f w Hf) as (o & w1 & Hone & Hfs).
    { intros n. by apply (Hreg loc); [left|]. }
    simpl. rewrite (bind_ok _ _ _ _ _ Hone).
    assert (∀ loc' f' n, loc' ∈ locs → local_file g loc' = Some f' →
                         fs w1 !! f' = Some n → is_dir n = false) as Hreg1.
    { intros loc' f' n Hin Hf' Hn.
      destruct Hfs as [Hfs | (t & d & Hfs)]; rewrite Hfs in Hn.
      - by apply (Hreg loc' f'); [right| |].
      - destruct (decide (f = f')) as [<-|Hne].
        + rewrite lookup_insert_eq in Hn. by injection Hn as <-.
        + rewrite lookup_insert_ne in Hn by done.
          by apply (Hreg loc' f'); [right| |]. }
    destruct o as [p|]; apply IH; try done;
      intros loc' Hin; apply Hsome; by right.
Qed.

End Returns.

(** C1, as the code has it. [download_files] returns, in the order of the
    configured locations, the local files of the locations it did not
    give up on. A location whose local file is fresh, or whose download
    goes through, contributes its path; every other location contributes
    nothing, so that the list is [expected_paths]. It has one path for
    each location but those whose download was logged as failed. A
    location whose file is missing or a week old and whose request fails
    with a request error (an error of the transport, or a 4xx or 5xx
    answer) is passed over, whether or not a local copy was there: the
    rest is downloaded as if that location had not been configured. When
    every location names a country, no local file is a directory, and
    nothing fails but requests and streams with a request error, the
    method returns. *)
Theorem download_files_keeps_fetched ext g self w :
  (∀ r w',
     download_files ext g self w = (Ok r, w') →
     r = expected_paths ext g self (locations self) w)
  ∧ (∀ r w',
       download_files ext g self w = (Ok r, w') →
       ∃ names,
         Forall2 (fun loc name => local_file g loc = Some name)
           (locations self) names
         ∧ r `sublist_of` names
         ∧ (length r + count_errors (log w')
            = length (locations self) + count_errors (log w))%nat)
  ∧ (∀ loc rest filename e,
       locations self = loc :: rest →
       local_file g loc = Some filename →
       (∀ n, fs w !! filename = Some n →
             week_us <= to_microseconds (now ext (history w))
                        - to_microseconds (mtime n)) →
       request_error ext (history w) (remote_url self loc) = Some e →
       issubclass (err_class e) RequestException = true →
       download_files ext g self w =
       download_files ext g (mk_handler (base_url self) rest)
         (add_log ERROR
            ("Failed to download " +:+ loc +:+ " OSM data: " +:+ err_text e)
            (add_call (Get (remote_url self loc))
               (add_log INFO ("Downloading OSM file for " +:+ loc) w))))
  ∧ ((∀ h url e, fault ext h (Get url) = Some e →
                 issubclass (err_class e) RequestException = true) →
     (∀ h f, fault ext h (OpenWrite f) = None) →
     (∀ h url e, stream_error (answer ext h url) = Some e →
                 issubclass (err_class e) RequestException = true) →
     (∀ loc, loc ∈ locations self → is_Some (local_file g loc)) →
     (∀ loc f n, loc ∈ locations self → local_file g loc = Some f →
                 fs w !! f = Some n → is_dir n = false) →
     ∃ r w', download_files ext g self w = (Ok r, w')).
Proof.
  split; [|split; [|split]].
  - intros r w' H. unfold download_files in H.
    by rewrite (download_loop_expected _ _ _ _ _ _ _ _ H).
  - intros r w' H.
    destruct (download_loop_spec _ _ _ _ _ _ _ _ H)
      as (names & kept & HF & -> & Hs & Hl).
    by exists names.
  - intros loc rest filename e Hlocs Hf Hold Hreq Hcls.
    unfold download_files. rewrite Hlocs. simpl.
    rewrite (bind_ok _ _ _ _ _
               (download_one_failed _ _ _ _ _ _ _ Hf Hold Hreq Hcls)).
    by apply download_loop_base_url.
  - intros Hget Hopen Hstream Hsome Hreg.
    by apply download_loop_total.
Qed.

Lemma download_files_keeps_fetched_witness :
  (∃ r w',
     download_files Scenario.togo_missing Scenario.test_globals
       Scenario.two_places Scenario.stale_world = (Ok r, w')
     ∧ r = expected_paths Scenario.togo_missing Scenario.test_globals
             Scenario.two_places (locations Scenario.two_places)
             Scenario.stale_world
     ∧ r = [Scenario.benin_file]
     ∧ ∃ names,
         Forall2 (fun loc name => local_file Scenario.test_globals loc = Some name)
           (locations Scenario.two_places) names
         ∧ r `sublist_of` names
         ∧ (length r + count_errors (log w')
            = length (locations Scenario.two_places)
              + count_errors (log Scenario.stale_world))%nat)
  ∧ download_files Scenario.togo_missing Scenario.test_globals
      Scenario.two_places Scenario.stale_world =
    download_files Scenario.togo_missing Scenario.test_globals
      (mk_handler (base_url Scenario.two_places) ["africa/benin"])
      (add_log ERROR
         "Failed to download africa/togo OSM data: 404 Client Error: Not Found for url: https://osm.example/africa/togo-latest.osm.pbf"
         (add_call (Get (remote_url Scenario.two_places "africa/togo"))
            (add_log INFO "Downloading OSM file for africa/togo"
               Scenario.stale_world))).
Proof.
  pose proof (download_files_keeps_fetched Scenario.togo_missing
                Scenario.test_globals Scenario.two_places
                Scenario.stale_world) as (Hlist & Hcount & Hskip & Hret).
  split.
  - destruct Hret as (r & w' & Hrun).
    + intros h url e He. discriminate He.
    + reflexivity.
    + intros h url e. simpl.
      destruct (String.eqb url _); intros He; discriminate He.
    + intros loc Hin.
      apply list_elem_of_In in Hin. simpl in Hin.
      destruct Hin as [<-|[<-|[]]]; by eexists.
    + intros loc f n Hin Hf Hn.
      apply list_elem_of_In in Hin. simpl in Hin.
      destruct Hin as [<-|[<-|[]]]; vm_compute in Hf; injection Hf as <-;
        vm_compute in Hn; [|discriminate Hn].
      by injection Hn as <-.
    + exists r, w'. split; [exact Hrun|].
      split; [exact (Hlist r w' Hrun)|].
      split; [|exact (Hcount r w' Hrun)].
      rewrite (Hlist r w' Hrun). vm_compute. reflexivity.
  - apply (Hskip "africa/togo" ["africa/benin"] Scenario.togo_file
             (mk_error HTTPError
                "404 Client Error: Not Found for url: https://osm.example/africa/togo-latest.osm.pbf")).
    + reflexivity.
    + reflexivity.
    + intros n Hn. vm_compute in Hn. injection Hn as <-. vm_compute.
      discriminate.
    + reflexivity.
    + reflexivity.
Defined.

(** ** The two modes of the load *)

Section Modes.

Variable ext : externals.

(** The load, when [os.environ] takes every item of the dictionary read
    from the file. *)
Lemma load_env_file_applied input override w path vars :
  path = (if is_regular_file w input then input else ".env") →
  is_regular_file w path = true →
  fault ext (history w) (OpenRead path) = None →
  read_vars (PyStr.splitlines (text_of w path)) [] = Ok vars →
  accepted vars →
  ∃ env',
    load_env_file ext input override w
    = (Ok tt, mk_world (fs w) env' (objects w) (log w)
                (history w ++ [OpenRead path]))
    ∧ ∀ k, env' !! k = applied override vars (environ w) k.
Proof.
  intros Hpath Hfile Hread Hvars Hok.
  destruct (load_env_file_reduce ext input override w path Hpath Hfile Hread)
    as (vars' & Hvars' & Hnd & ->).
  assert (vars' = vars) as -> by congruence.
  destruct override.
  - rewrite (environ_update_ok _ _ Hok).
    eexists. split; [reflexivity|].
    intros k. simpl. by apply update_lookup.
  - destruct (environ_setdefault_all_ok vars (add_call (OpenRead path) w) Hok)
      as (env' & -> & Hk).
    by exists env'.
Qed.


End Modes.




(** The file says [A=1] and [B=2]; the environment has [A=9]. In
    setdefault mode [A] stays 9, in override mode it becomes 1; [B] is 2
    in both. *)
Example load_env_file_setdefault_A9 :
  let w := (load_env_file Scenario.all_fine ".osm.env" false Scenario.env_world).2 in
  environ w !! "A" = Some "9" ∧ environ w !! "B" = Some "2".
Proof. by vm_compute. Qed.

Example load_env_file_override_A1 :
  let w := (load_env_file Scenario.all_fine ".osm.env" true Scenario.env_world).2 in
  environ w !! "A" = Some "1" ∧ environ w !! "B" = Some "2".
Proof. by vm_compute. Qed.

(** C9. When several lines of the file assign to the same key, the first
    of them gives the key its value in the dictionary read from the
    file, before either mode is applied. So in neither mode, and however
    the load ends, does the variable take the value of a later line: it
    is as before or has the value of the first line. When [os.environ]
    takes every item of the dictionary, both modes return: in override
    mode the variable takes the value of the first line, and in
    setdefault mode it takes it unless the environment already had the
    variable. *)
Theorem first_assignment_wins ext input w path before line after key value :
  path = (if is_regular_file w input then input else ".env") →
  is_regular_file w path = true →
  fault ext (history w) (OpenRead path) = None →
  PyStr.splitlines (text_of w path) = before ++ line :: after →
  assigns line key value →
  (∀ l v, l ∈ before → ¬ assigns l key v) →
  ∃ vars,
    read_vars (before ++ line :: after) [] = Ok vars
    ∧ dict_get vars key = Some value
    ∧ (∀ override,
         environ (load_env_file ext input override w).2 !! key
         = environ w !! key
         ∨ environ (load_env_file ext input override w).2 !! key
           = Some value)
    ∧ (accepted vars →
       (∃ w', load_env_file ext input true w = (Ok tt, w')
              ∧ environ w' !! key = Some value)
       ∧ (∃ w', load_env_file ext input false w = (Ok tt, w')
                ∧ environ w' !! key
                  = Some (match environ w !! key with
                          | Some old => old
                          | None => value
                          end))).
Proof.
  intros Hpath Hfile Hread Hlines Hline Hbefore.
  destruct (load_env_file_reduce ext input false w path Hpath Hfile Hread)
    as (vars & Hvars & _ & _).
  pose proof Hvars as Hvars'. rewrite Hlines in Hvars'.
  pose proof (read_vars_first _ _ _ _ _ _ _ Hvars' eq_refl Hbefore Hline) as Hg.
  exists vars. split; [done|]. split; [done|]. split.
  - intros override.
    destruct (load_env_file_any ext input override w path Hpath Hfile Hread)
      as (vars0 & r & env' & Hvars0 & -> & He).
    assert (vars0 = vars) as -> by congruence.
    simpl. destruct (He key) as [Hl | [_ Hv]]; [by left|].
    right. by rewrite Hv.
  - intros Hok.
    destruct (load_env_file_applied ext input true w path vars
                Hpath Hfile Hread Hvars Hok) as (env2 & H2 & Hk2).
    destruct (load_env_file_applied ext input false w path vars
                Hpath Hfile Hread Hvars Hok) as (env1 & H1 & Hk1).
    split.
    + eexists. split; [exact H2|]. simpl. rewrite Hk2. unfold applied.
      by rewrite Hg.
    + eexists. split; [exact H1|]. simpl. rewrite Hk1. unfold applied.
      rewrite Hg. by destruct (environ w !! key).
Qed.

Lemma first_assignment_wins_witness :
  ∃ vars,
    read_vars ([] ++ "A=1" :: ["A=2"]) [] = Ok vars
    ∧ dict_get vars "A" = Some "1"
    ∧ (∀ override,
         environ (load_env_file Scenario.all_fine ".osm.env" override
                    Scenario.dup_world).2 !! "A"
         = environ Scenario.dup_world !! "A"
         ∨ environ (load_env_file Scenario.all_fine ".osm.env" override
                      Scenario.dup_world).2 !! "A"
           = Some "1")
    ∧ (∃ w', load_env_file Scenario.all_fine ".osm.env" true Scenario.dup_world
             = (Ok tt, w')
             ∧ environ w' !! "A" = Some "1")
    ∧ (∃ w', load_env_file Scenario.all_fine ".osm.env" false Scenario.dup_world
             = (Ok tt, w')
             ∧ environ w' !! "A"
               = Some (match environ Scenario.dup_world !! "A" with
                       | Some old => old
                       | None => "1"
                       end)).
Proof.
  destruct (first_assignment_wins Scenario.all_fine ".osm.env"
              Scenario.dup_world ".osm.env" [] "A=1" ["A=2"] "A" "1")
    as (vars & Hvars & Hg & Hany & Hok).
  - reflexivity.
  - reflexivity.
  - reflexivity.
  - reflexivity.
  - repeat split; reflexivity.
  - intros l v H. by apply elem_of_nil in H.
  - exists vars. split; [exact Hvars|]. split; [exact Hg|].
    split; [exact Hany|].
    apply Hok. vm_compute in Hvars. injection Hvars as <-.
    repeat constructor.
Defined.
